(** * ReadRight client: the analysis session state machine

    A shallow embedding of the React client of the ReadRight repository:
    the ranking/filter derivations ([allSorted], [filtered], [topShown],
    [judgeFriendly]), the per-sentence rewrite cache ([rewriteSentence],
    [SentenceCard]) and the upload handler ([analyzePdf], [onPickFile]) of
    the full client, and the [analyze] handler of the minimal client in
    [frontend/src/App.js].

    Modelling conventions.
    - JavaScript numbers in the state and in the scores are whole numbers
      ([Z]); the comparator of the sort only looks at the sign of a
      difference.  The number input of topN can hold a fraction as well:
      [topShown_num] is the view for every number value of JS ([Num]), and
      it is [topShown] on the whole numbers.
    - [undefined]/[null] is [None]; [x?.f] is [f <$> x]; [x ?? d] is
      [default d x]; [x || d] is [js_or]/[or_else] over the truthiness of
      the operand.
    - The object [rewriteBySentence] is a [gmap string RewriteState].
    - An [async] handler is split at its suspension point: the part that
      runs up to the [fetch], and the part that runs once the awaited
      promises have settled, which receives their outcome as an argument.
      React state setters are applied to the store; a handler reads the
      values of the render it was created in, passed as [rendered]. *)

From Stdlib Require Import ZArith QArith Qround Qminmax.
From stdpp Require Import gmap strings list sorting pretty.

Local Open Scope string_scope.
Local Open Scope Z_scope.

(** ** JavaScript primitives *)

Module JS.

(** Truthiness, the test behind [||], [!] and [if]. *)
Class Truthy (A : Type) := truthy : A → bool.

#[export] Instance truthy_string : Truthy string :=
  fun s => if decide (s = "") then false else true.
#[export] Instance truthy_Z : Truthy Z :=
  fun n => if decide (n = 0) then false else true.
#[export] Instance truthy_bool : Truthy bool := fun b => b.
#[export] Instance truthy_option {A} `{Truthy A} : Truthy (option A) :=
  fun o => match o with Some a => truthy a | None => false end.

(** [x || y] *)
Definition js_or {A} `{Truthy A} (x y : A) : A :=
  if truthy x then x else y.

(** [x || d] where [x] may be [undefined] and [d] is not. *)
Definition or_else {A} `{Truthy A} (x : option A) (d : A) : A :=
  match x with
  | Some a => js_or a d
  | None => d
  end.

(** function clamp(n, a, b) { return Math.max(a, Math.min(b, n)); } *)
Definition clamp (n a b : Z) : Z := Z.max a (Z.min b n).

Section Arrays.
Context {A : Type}.

(** [Array.prototype.sort(cmp)]: a stable sort; [cmp x y > 0] puts [x]
    after [y].  For a comparator that is a total preorder the result is
    determined by stability, whatever algorithm the engine runs; the model
    is the insertion sort. *)
Fixpoint sort_insert (cmp : A → A → Z) (x : A) (l : list A) : list A :=
  match l with
  | [] => [x]
  | y :: l' =>
      if decide (cmp x y ≤ 0) then x :: y :: l'
      else y :: sort_insert cmp x l'
  end.

Definition Array_sort (cmp : A → A → Z) (l : list A) : list A :=
  foldr (sort_insert cmp) [] l.

(** Relative index of [slice]: negative counts from the end. *)
Definition rel_index (len k : Z) : Z :=
  if decide (k < 0) then Z.max (len + k) 0 else Z.min k len.

(** [Array.prototype.slice(start, end)] *)
Definition Array_slice (start end_ : Z) (l : list A) : list A :=
  let len := Z.of_nat (length l) in
  let k := rel_index len start in
  let final := rel_index len end_ in
  take (Z.to_nat (final - k)) (drop (Z.to_nat k) l).

(** [Array.prototype.filter(p)] *)
Definition Array_filter (p : A → bool) (l : list A) : list A :=
  List.filter p l.

End Arrays.

End JS.
Import JS.

(** ** Response model *)

Record ScoredSentence := {
  sentence : string;
  score : option Z;
}.

Record AnalysisResult := {
  grade_level : option Q;
  reading_time_minutes : option Q;
  total_sentences : option Z;
  average_risk_score : option Q;
  all_sentences : option (list ScoredSentence);
  top_risk_sentences : option (list ScoredSentence);
}.

(** ** Risk filter and ranking engine *)

(** (a, b) => (b.score ?? 0) - (a.score ?? 0) *)
Definition by_score_desc (a b : ScoredSentence) : Z :=
  default 0 (score b) - default 0 (score a).

Definition allSorted (analysis : option AnalysisResult) : list ScoredSentence :=
  match analysis ≫= all_sentences with
  | None => []
  | Some all => Array_sort by_score_desc all
  end.

(** The predicate is [(x) => (x.score ?? 0) >= min]. *)
Definition filtered (analysis : option AnalysisResult) (minRisk : Z)
  : list ScoredSentence :=
  let min := clamp (js_or minRisk 0) 0 999 in
  Array_filter (fun x => bool_decide (min ≤ default 0 (score x)))
    (allSorted analysis).

Definition topShown (analysis : option AnalysisResult) (minRisk topN : Z)
  : list ScoredSentence :=
  let n := clamp (js_or topN 10) 1 200 in
  Array_slice 0 n (filtered analysis minRisk).

Definition judgeFriendly (analysis : option AnalysisResult) (minRisk topN : Z)
  : list ScoredSentence :=
  match analysis ≫= top_risk_sentences with
  | Some (x :: top) => x :: top
  | _ => Array_slice 0 5 (topShown analysis minRisk topN)
  end.

(** *** The same derivation over a store of arrays

    [allSorted] copies [analysis.all_sentences] with a spread and sorts the
    copy in place.  Arrays are references into a store here, so that what
    the sort overwrites is visible. *)

Module Mem.

Definition fresh_ref (h : gmap nat (list ScoredSentence)) : nat :=
  fresh (dom h).

(** [[...r]], or an array literal: a new array. *)
Definition alloc (l : list ScoredSentence) (h : gmap nat (list ScoredSentence))
  : nat * gmap nat (list ScoredSentence) :=
  let r := fresh_ref h in (r, <[r := l]> h).

(** [r.sort(cmp)]: overwrites the array at [r]. *)
Definition sort_at (cmp : ScoredSentence → ScoredSentence → Z) (r : nat)
    (h : gmap nat (list ScoredSentence)) : gmap nat (list ScoredSentence) :=
  alter (Array_sort cmp) r h.

(** [all] is [analysis?.all_sentences]; the result is the array returned. *)
Definition allSorted (all : option nat) (h : gmap nat (list ScoredSentence))
  : nat * gmap nat (list ScoredSentence) :=
  match all with
  | None => alloc [] h
  | Some src =>
      let '(arr, h1) := alloc (default [] (h !! src)) h in
      (arr, sort_at by_score_desc arr h1)
  end.

End Mem.

(** ** Handlers: state, exceptions, the network *)

(** A thrown value, read only through [e?.message]. *)
Record Thrown := { message : option string }.

(** [new Error(msg)] *)
Definition Error_ (msg : string) : Thrown := {| message := Some msg |}.

(** Computations over a state [S] that return or throw. *)
Definition Js (S A : Type) : Type := S → (Thrown + A) * S.

#[export] Instance Js_ret {S} : MRet (Js S) := fun A a s => (inr a, s).
#[export] Instance Js_bind {S} : MBind (Js S) := fun A B k m s =>
  match m s with
  | (inr a, s') => k a s'
  | (inl e, s') => (inl e, s')
  end.

Definition throw {S A} (e : Thrown) : Js S A := fun s => (inl e, s).

Definition modify {S} (f : S → S) : Js S unit := fun s => (inr tt, f s).

(** try { m } catch (e) { h e } *)
Definition try_catch {S A} (m : Js S A) (h : Thrown → Js S A) : Js S A :=
  fun s =>
    match m s with
    | (inl e, s') => h e s'
    | r => r
    end.

(** try { m } finally { f } *)
Definition finally {S A} (m : Js S A) (f : Js S unit) : Js S A :=
  fun s =>
    let '(r, s') := m s in
    match f s' with
    | (inl e, s'') => (inl e, s'')
    | (inr _, s'') => (r, s'')
    end.

(** What the promise of an [async] function does: [inr] fulfils, [inl]
    rejects, that is, an exception leaves the handler. *)
Definition outcome {S A} (r : (Thrown + A) * S) : Thrown + A := r.1.
Definition state_after {S A} (r : (Thrown + A) * S) : S := r.2.

(** *** The network *)

Record File := { name : string }.

Inductive Request :=
| PostAnalyze (base : string) (body : File)
| PostRewrite (base : string) (sentence mode : string).

(** A response: [res.status], what [res.text()] and [res.json()] settle to
    ([inl]: the promise rejects; a JSON [null] body is [inr None]).  The
    handlers read the body once: with [json] when the status is 2xx, with
    [text] otherwise. *)
Module Response.
Record t (D : Type) := {
  status : N;
  text : Thrown + string;
  json : Thrown + option D;
}.
Arguments status {D}.
Arguments text {D}.
Arguments json {D}.

(** [res.ok]: the status is in the range 200-299. *)
Definition ok {D} (res : t D) : bool :=
  bool_decide (200 ≤ status res ≤ 299)%N.
End Response.

(** How the promise returned by [fetch] settles. *)
Inductive Settled (D : Type) :=
| Rejected (e : Thrown)
| Resolved (res : Response.t D).
Arguments Rejected {D}.
Arguments Resolved {D}.

(** [await p] *)
Definition await {S A} (p : Thrown + A) : Js S A :=
  match p with
  | inl e => throw e
  | inr a => mret a
  end.

Definition await_fetch {S D} (r : Settled D) : Js S (Response.t D) :=
  match r with
  | Rejected e => throw e
  | Resolved res => mret res
  end.

(** The body of a 2xx [/rewrite] response. *)
Module RewriteBody.
Record t := {
  rewrite : option string;
  rewritten : option string;
  text : option string;
}.
End RewriteBody.

(** *** Component state of the full client *)

(** key: sentence string, value: { loading, error, output } *)
Module RewriteState.
Record t := {
  loading : bool;
  error : string;
  output : string;
}.
End RewriteState.

Record AppState := {
  apiBase : string;
  file : option File;
  fileName : string;
  loading : bool;
  statusPill : string;
  error : string;
  analysis : option AnalysisResult;
  minRisk : Z;
  topN : Z;
  rewriteBySentence : gmap string RewriteState.t;
}.

(** The component together with the requests it has issued: [pending] are
    the calls in flight, [sent] every call made so far. *)
Record World := {
  app : AppState;
  pending : list Request;
  sent : list Request;
}.

Definition on_app (f : AppState → AppState) : Js World unit :=
  modify (fun w => {| app := f (app w); pending := pending w; sent := sent w |}).

Definition fetch (r : Request) : Js World unit :=
  modify (fun w =>
    {| app := app w; pending := pending w ++ [r]; sent := sent w ++ [r] |}).

Definition setFile (v : option File) : Js World unit :=
  on_app (fun s =>
    {| apiBase := apiBase s; file := v; fileName := fileName s;
       loading := loading s; statusPill := statusPill s; error := error s;
       analysis := analysis s; minRisk := minRisk s; topN := topN s;
       rewriteBySentence := rewriteBySentence s |}).

Definition setFileName (v : string) : Js World unit :=
  on_app (fun s =>
    {| apiBase := apiBase s; file := file s; fileName := v;
       loading := loading s; statusPill := statusPill s; error := error s;
       analysis := analysis s; minRisk := minRisk s; topN := topN s;
       rewriteBySentence := rewriteBySentence s |}).

Definition setLoading (v : bool) : Js World unit :=
  on_app (fun s =>
    {| apiBase := apiBase s; file := file s; fileName := fileName s;
       loading := v; statusPill := statusPill s; error := error s;
       analysis := analysis s; minRisk := minRisk s; topN := topN s;
       rewriteBySentence := rewriteBySentence s |}).

Definition setStatusPill (v : string) : Js World unit :=
  on_app (fun s =>
    {| apiBase := apiBase s; file := file s; fileName := fileName s;
       loading := loading s; statusPill := v; error := error s;
       analysis := analysis s; minRisk := minRisk s; topN := topN s;
       rewriteBySentence := rewriteBySentence s |}).

Definition setError (v : string) : Js World unit :=
  on_app (fun s =>
    {| apiBase := apiBase s; file := file s; fileName := fileName s;
       loading := loading s; statusPill := statusPill s; error := v;
       analysis := analysis s; minRisk := minRisk s; topN := topN s;
       rewriteBySentence := rewriteBySentence s |}).

Definition setAnalysis (v : option AnalysisResult) : Js World unit :=
  on_app (fun s =>
    {| apiBase := apiBase s; file := file s; fileName := fileName s;
       loading := loading s; statusPill := statusPill s; error := error s;
       analysis := v; minRisk := minRisk s; topN := topN s;
       rewriteBySentence := rewriteBySentence s |}).

Definition setMinRisk (v : Z) : Js World unit :=
  on_app (fun s =>
    {| apiBase := apiBase s; file := file s; fileName := fileName s;
       loading := loading s; statusPill := statusPill s; error := error s;
       analysis := analysis s; minRisk := v; topN := topN s;
       rewriteBySentence := rewriteBySentence s |}).

Definition setTopN (v : Z) : Js World unit :=
  on_app (fun s =>
    {| apiBase := apiBase s; file := file s; fileName := fileName s;
       loading := loading s; statusPill := statusPill s; error := error s;
       analysis := analysis s; minRisk := minRisk s; topN := v;
       rewriteBySentence := rewriteBySentence s |}).

(** [setRewriteBySentence(prev => ...)]: the updater receives the value in
    the store, not the one the handler was rendered with.  A plain object
    argument is the constant updater. *)
Definition setRewriteBySentence
    (upd : gmap string RewriteState.t → gmap string RewriteState.t)
  : Js World unit :=
  on_app (fun s =>
    {| apiBase := apiBase s; file := file s; fileName := fileName s;
       loading := loading s; statusPill := statusPill s; error := error s;
       analysis := analysis s; minRisk := minRisk s; topN := topN s;
       rewriteBySentence := upd (rewriteBySentence s) |}).

(** *** Upload handler *)

(** The part of [analyzePdf] that runs when it is called. *)
Definition analyzePdf (rendered : AppState) : Js World unit :=
  match file rendered with
  | None => setError "Choose a PDF first."
  | Some f =>
      setError "";;
      setLoading true;;
      setStatusPill "Analyzing…";;
      fetch (PostAnalyze (apiBase rendered) f)
  end.

(** The [try] block, from the point where the [fetch] has settled. *)
Definition analyzePdf_try (r : Settled AnalysisResult) : Js World unit :=
  res ← await_fetch r;
  if negb (Response.ok res) then
    txt ← try_catch (await (Response.text res)) (fun _ => mret "");
    throw (Error_ ("Analyze failed (" +:+ pretty (Response.status res) +:+ "). " +:+ txt))
  else
    data ← await (Response.json res);
    setAnalysis data;;
    setStatusPill "Done";;
    setMinRisk 1;;
    setTopN 10;;
    setRewriteBySentence (fun _ => ∅).

Definition analyzePdf_catch (e : Thrown) : Js World unit :=
  setStatusPill "Error";;
  setError (or_else (message e) "Analyze failed.").

Definition analyzePdf_settled (r : Settled AnalysisResult) : Js World unit :=
  finally (try_catch (analyzePdf_try r) analyzePdf_catch) (setLoading false).

(** function onPickFile(e), with [f = e.target.files?.[0] || null] *)
Definition onPickFile (f : option File) : Js World unit :=
  setFile f;;
  setFileName (match f with Some f => name f | None => "" end);;
  setAnalysis None;;
  setError "";;
  setStatusPill "Ready";;
  setRewriteBySentence (fun _ => ∅).

(** *** Rewrite cache *)

(** The part of [rewriteSentence] that runs when it is called. *)
Definition rewriteSentence (rendered : AppState) (sentence : string)
    (mode : string) : Js World unit :=
  let key := sentence in
  let existing := rewriteBySentence rendered !! key in
  if truthy (RewriteState.output <$> existing)
     && negb (truthy (RewriteState.error <$> existing))
  then mret tt
  else
    setRewriteBySentence (fun prev =>
      <[key := {| RewriteState.loading := true;
                  RewriteState.error := "";
                  RewriteState.output :=
                    or_else (RewriteState.output <$> prev !! key) "" |}]> prev);;
    fetch (PostRewrite (apiBase rendered) sentence mode).

(** data?.rewrite || data?.rewritten || data?.text || "" *)
Definition extract (data : option RewriteBody.t) : string :=
  or_else (js_or (js_or (data ≫= RewriteBody.rewrite)
                        (data ≫= RewriteBody.rewritten))
                 (data ≫= RewriteBody.text)) "".

Definition rewriteSentence_try (key : string) (r : Settled RewriteBody.t)
  : Js World unit :=
  res ← await_fetch r;
  if negb (Response.ok res) then
    txt ← try_catch (await (Response.text res)) (fun _ => mret "");
    throw (Error_ ("Rewrite failed (" +:+ pretty (Response.status res) +:+ "). " +:+ txt))
  else
    data ← await (Response.json res);
    let out := extract data in
    setRewriteBySentence (fun prev =>
      <[key := {| RewriteState.loading := false;
                  RewriteState.error := "";
                  RewriteState.output := js_or out "(empty rewrite)" |}]> prev).

Definition rewriteSentence_catch (key : string) (e : Thrown) : Js World unit :=
  setRewriteBySentence (fun prev =>
    <[key := {| RewriteState.loading := false;
                RewriteState.error := or_else (message e) "Rewrite failed.";
                RewriteState.output := "" |}]> prev).

Definition rewriteSentence_settled (key : string) (r : Settled RewriteBody.t)
  : Js World unit :=
  try_catch (rewriteSentence_try key r) (rewriteSentence_catch key).

(** *** SentenceCard *)

(** What a card shows, as far as the rewrite state decides it. *)
Record Card := {
  disabled : bool;
  label : string;
  err : string;
  out : string;
}.

Definition SentenceCard (rewriteState : option RewriteState.t) : Card :=
  let loading := truthy (RewriteState.loading <$> rewriteState) in
  {| disabled := loading;
     label := if loading then "Rewriting…" else "Rewrite (plain English)";
     err := or_else (RewriteState.error <$> rewriteState) "";
     out := or_else (RewriteState.output <$> rewriteState) "" |}.

(** A click on the card's button: the browser delivers no click to a
    disabled button, otherwise [onRewrite] runs, which is
    [() => rewriteSentence(x.sentence, "plain_english")]. *)
Definition click_rewrite (rendered : AppState) (sentence : string)
  : Js World unit :=
  if disabled (SentenceCard (rewriteBySentence rendered !! sentence))
  then mret tt
  else rewriteSentence rendered sentence "plain_english".

(** The spec's view of one cache slot, read off the stored value the way
    [SentenceCard] reads it; a key that was never written is [Idle]. *)
Inductive RewriteEntry :=
| Idle
| Loading
| Error (message : string)
| Success (output : string).

Definition getEntry (cache : gmap string RewriteState.t) (sentence : string)
  : RewriteEntry :=
  let card := SentenceCard (cache !! sentence) in
  if disabled card then Loading
  else if truthy (err card) then Error (err card)
  else if truthy (out card) then Success (out card)
  else Idle.

(** The three shapes a stored value can have. *)
Definition Loading_shape (e : RewriteState.t) : Prop :=
  RewriteState.loading e = true ∧ RewriteState.error e = ""
  ∧ RewriteState.output e = "".
Definition Error_shape (e : RewriteState.t) : Prop :=
  RewriteState.loading e = false ∧ RewriteState.error e ≠ ""
  ∧ RewriteState.output e = "".
Definition Success_shape (e : RewriteState.t) : Prop :=
  RewriteState.loading e = false ∧ RewriteState.error e = ""
  ∧ RewriteState.output e ≠ "".

Definition one_shape (e : RewriteState.t) : Prop :=
  (Loading_shape e ∧ ¬ Error_shape e ∧ ¬ Success_shape e)
  ∨ (¬ Loading_shape e ∧ Error_shape e ∧ ¬ Success_shape e)
  ∨ (¬ Loading_shape e ∧ ¬ Error_shape e ∧ Success_shape e).

(** What entering Loading stores: the flag set, the error empty, and the
    output that was stored under the key before (prev?.[key]?.output). *)
Definition Loading_kept_shape (e : RewriteState.t) : Prop :=
  RewriteState.loading e = true ∧ RewriteState.error e = "".

Definition one_shape_kept (e : RewriteState.t) : Prop :=
  (Loading_kept_shape e ∧ ¬ Error_shape e ∧ ¬ Success_shape e)
  ∨ (¬ Loading_kept_shape e ∧ Error_shape e ∧ ¬ Success_shape e)
  ∨ (¬ Loading_kept_shape e ∧ ¬ Error_shape e ∧ Success_shape e).

(** *** The API base field *)

(** [s.replace(/\/$/, "")]: a slash that ends the string is removed. *)
Fixpoint strip_trailing_slash (s : string) : string :=
  match s with
  | EmptyString => EmptyString
  | String c EmptyString => if decide (s = "/") then EmptyString else s
  | String c rest => String c (strip_trailing_slash rest)
  end.

Definition setApiBase (v : string) : Js World unit :=
  on_app (fun s =>
    {| apiBase := v; file := file s; fileName := fileName s;
       loading := loading s; statusPill := statusPill s; error := error s;
       analysis := analysis s; minRisk := minRisk s; topN := topN s;
       rewriteBySentence := rewriteBySentence s |}).

(** onChange={(e) => setApiBase(e.target.value.replace(/\/$/, ""))} *)
Definition onChangeApiBase (value : string) : Js World unit :=
  setApiBase (strip_trailing_slash value).

(** *** Runs of the component *)

(** useState initial values; [base] is [API_BASE]. *)
Definition init (base : string) : World :=
  {| app := {| apiBase := base; file := None; fileName := "";
               loading := false; statusPill := "Idle"; error := "";
               analysis := None; minRisk := 1; topN := 10;
               rewriteBySentence := ∅ |};
     pending := []; sent := [] |}.

Definition run {A} (m : Js World A) (w : World) : World := state_after (m w).

(** The [i]-th call in flight settles. *)
Definition settle (i : nat) (w : World) : World :=
  {| app := app w; pending := delete i (pending w); sent := sent w |}.

(** What can happen to the component. *)
Inductive Event :=
| PickFile (f : option File)
| ChangeMinRisk (v : Z)
| ChangeTopN (v : Z)
| CallAnalyze
| CallRewrite (sentence mode : string)
| SettleAnalyze (i : nat) (r : Settled AnalysisResult)
| SettleRewrite (i : nat) (r : Settled RewriteBody.t)
| ChangeApiBase (value : string).

(** One event.  A handler that is called belongs to a render and reads its
    values, [rendered]; what it writes goes to the store. *)
Definition step (rendered : AppState) (ev : Event) (w : World)
  : option World :=
  match ev with
  | PickFile f => Some (run (onPickFile f) w)
  | ChangeMinRisk v => Some (run (setMinRisk v) w)
  | ChangeTopN v => Some (run (setTopN v) w)
  | CallAnalyze => Some (run (analyzePdf rendered) w)
  | CallRewrite s m => Some (run (rewriteSentence rendered s m) w)
  | SettleAnalyze i r =>
      match pending w !! i with
      | Some (PostAnalyze _ _) => Some (run (analyzePdf_settled r) (settle i w))
      | _ => None
      end
  | SettleRewrite i r =>
      match pending w !! i with
      | Some (PostRewrite _ s _) =>
          Some (run (rewriteSentence_settled s r) (settle i w))
      | _ => None
      end
  | ChangeApiBase v => Some (run (onChangeApiBase v) w)
  end.

(** A run keeps the renders so far, the latest first.  Each event names
    the render whose handler it calls: 0 is the latest, a larger number an
    older one, as when a click is handled by the render from before a
    settlement. *)
Fixpoint steps (evs : list (nat * Event)) (renders : list AppState)
    (w : World) : option (list AppState * World) :=
  match evs with
  | [] => Some (renders, w)
  | (k, ev) :: evs =>
      match renders !! k with
      | Some rendered =>
          match step rendered ev w with
          | Some w' => steps evs (app w' :: renders) w'
          | None => None
          end
      | None => None
      end
  end.

(** The states a run reaches, with the renders it went through. *)
Inductive reachable_with (base : string) : list AppState → World → Prop :=
| reachable_init : reachable_with base [app (init base)] (init base)
| reachable_step ev rendered renders w w' :
    reachable_with base renders w →
    rendered ∈ renders →
    step rendered ev w = Some w' →
    reachable_with base (app w' :: renders) w'.

Definition reachable (base : string) (w : World) : Prop :=
  ∃ renders, reachable_with base renders w.

(** The runs in which every handler called is of the latest render. *)
Inductive reachable_latest (base : string) : World → Prop :=
| reachable_latest_init : reachable_latest base (init base)
| reachable_latest_step ev w w' :
    reachable_latest base w →
    step (app w) ev w = Some w' →
    reachable_latest base w'.

(** ** The minimal client, [frontend/src/App.js] *)

Module Minimal.

Definition API_BASE : string := "http://127.0.0.1:8000".

Record AppState := {
  file : option File;
  status : string;
  error : string;
  result : option AnalysisResult;
}.

Record World := {
  app : AppState;
  pending : list Request;
  sent : list Request;
}.

Definition on_app (f : AppState → AppState) : Js World unit :=
  modify (fun w => {| app := f (app w); pending := pending w; sent := sent w |}).

Definition fetch (r : Request) : Js World unit :=
  modify (fun w =>
    {| app := app w; pending := pending w ++ [r]; sent := sent w ++ [r] |}).

Definition setStatus (v : string) : Js World unit :=
  on_app (fun s =>
    {| file := file s; status := v; error := error s; result := result s |}).

Definition setError (v : string) : Js World unit :=
  on_app (fun s =>
    {| file := file s; status := status s; error := v; result := result s |}).

Definition setResult (v : option AnalysisResult) : Js World unit :=
  on_app (fun s =>
    {| file := file s; status := status s; error := error s; result := v |}).

(** The part of [analyze] that runs when it is called. *)
Definition analyze (rendered : AppState) : Js World unit :=
  match file rendered with
  | None => mret tt
  | Some f =>
      setStatus "analyzing";;
      setError "";;
      setResult None;;
      fetch (PostAnalyze API_BASE f)
  end.

Definition analyze_try (r : Settled AnalysisResult) : Js World unit :=
  res ← await_fetch r;
  if negb (Response.ok res) then
    txt ← await (Response.text res);
    setStatus "error";;
    setError ("Backend error (" +:+ pretty (Response.status res) +:+ "): " +:+ txt)
  else
    data ← await (Response.json res);
    setResult data;;
    setStatus "done".

Definition analyze_catch (e : Thrown) : Js World unit :=
  setStatus "error";;
  setError "Could not reach backend. Is uvicorn running on :8000?".

Definition analyze_settled (r : Settled AnalysisResult) : Js World unit :=
  try_catch (analyze_try r) analyze_catch.

Definition setFile (v : option File) : Js World unit :=
  on_app (fun s =>
    {| file := v; status := status s; error := error s; result := result s |}).

(** The [onChange] of the file input, with [f = e.target.files?.[0] || null] *)
Definition onChange (f : option File) : Js World unit :=
  setFile f;;
  setStatus "idle";;
  setError "";;
  setResult None.

Definition init : World :=
  {| app := {| file := None; status := "idle"; error := ""; result := None |};
     pending := []; sent := [] |}.

Definition run {A} (m : Js World A) (w : World) : World := state_after (m w).

Definition settle (i : nat) (w : World) : World :=
  {| app := app w; pending := delete i (pending w); sent := sent w |}.

End Minimal.

(** ** Vocabulary of the statements *)

(** [sub] occurs in [s]. *)
Definition includes (sub s : string) : Prop :=
  ∃ pre post, s = pre +:+ sub +:+ post.

(** A submit that ends in failure: the call could not complete, or the
    response is not 2xx. *)
Definition failed {D} (r : Settled D) : bool :=
  match r with
  | Rejected _ => true
  | Resolved res => negb (Response.ok res)
  end.

(** The call came back with a 2xx response whose body could be read. *)
Definition completed_ok {D} (r : Settled D) : bool :=
  match r with
  | Resolved res =>
      Response.ok res
      && match Response.json res with inr _ => true | inl _ => false end
  | Rejected _ => false
  end.

(** The body text of a response, as far as it could be read. *)
Definition body_text {D} (res : Response.t D) : string :=
  match Response.text res with
  | inr body => body
  | inl _ => ""
  end.

(** The score a sentence is compared by: [x.score ?? 0]. *)
Definition rank (x : ScoredSentence) : Z := default 0 (score x).

(** [l'] is the stable descending-by-score sort of [l]: it is a
    rearrangement of [l], scores never increase along it, and the sentences
    of any one score come in the order they have in [l]. *)
Definition stable_sort_desc (l l' : list ScoredSentence) : Prop :=
  l' ≡ₚ l
  ∧ StronglySorted (fun x y => rank y ≤ rank x) l'
  ∧ ∀ v, filter (fun x => rank x = v) l' = filter (fun x => rank x = v) l.

(** Every stored value of the cache is a Loading entry (with the output it
    kept), an Error or a Success. *)
Definition cache_wf (cache : gmap string RewriteState.t) : Prop :=
  ∀ key e, cache !! key = Some e →
           Loading_kept_shape e ∨ Error_shape e ∨ Success_shape e.

(** The same, with no output kept in a Loading entry. *)
Definition cache_strict (cache : gmap string RewriteState.t) : Prop :=
  ∀ key e, cache !! key = Some e →
           Loading_shape e ∨ Error_shape e ∨ Success_shape e.

(** *** The extraction in the spec's words *)

(** The first field that is present, in the order rewrite, rewritten,
    text; empty when none is. *)
Definition first_present (body : RewriteBody.t) : string :=
  match RewriteBody.rewrite body with
  | Some s => s
  | None =>
      match RewriteBody.rewritten body with
      | Some s => s
      | None => default "" (RewriteBody.text body)
      end
  end.

(** The first field that is present and not empty; empty when none is. *)
Fixpoint first_nonempty (fields : list (option string)) : string :=
  match fields with
  | [] => ""
  | Some s :: rest => if decide (s = "") then first_nonempty rest else s
  | None :: rest => first_nonempty rest
  end.

(** ** Example inputs *)

Definition DEFAULT_API_BASE : string := "https://readright-1hiy.onrender.com".

Definition file_report : File := {| name := "report.pdf" |}.

Definition sentence_A : ScoredSentence := {| sentence := "A"; score := Some 2 |}.
Definition sentence_B : ScoredSentence := {| sentence := "B"; score := Some 9 |}.
Definition sentence_C : ScoredSentence := {| sentence := "C"; score := Some 5 |}.

(** all_sentences = [{"A",2},{"B",9},{"C",5}] *)
Definition analysis_ABC : AnalysisResult :=
  {| grade_level := None; reading_time_minutes := None;
     total_sentences := Some 3; average_risk_score := None;
     all_sentences := Some [sentence_A; sentence_B; sentence_C];
     top_risk_sentences := None |}.

(** A store whose array 0 is all_sentences of the analysis above. *)
Definition store_ABC : gmap nat (list ScoredSentence) :=
  {[ 0%nat := [sentence_A; sentence_B; sentence_C] ]}.

(** 200 with the analysis of A, B and C *)
Definition response_ABC : Response.t AnalysisResult :=
  {| Response.status := 200;
     Response.text := inr "";
     Response.json := inr (Some analysis_ABC) |}.


(** 200 with body {"rewrite":"Simpler B."} *)
Definition response_simpler_B : Response.t RewriteBody.t :=
  {| Response.status := 200;
     Response.text := inr "";
     Response.json :=
       inr (Some {| RewriteBody.rewrite := Some "Simpler B.";
                    RewriteBody.rewritten := None;
                    RewriteBody.text := None |}) |}.

(** 200 with body {"rewrite":"","rewritten":"Simpler."} *)
Definition body_empty_rewrite : RewriteBody.t :=
  {| RewriteBody.rewrite := Some "";
     RewriteBody.rewritten := Some "Simpler.";
     RewriteBody.text := None |}.

Definition response_empty_rewrite : Response.t RewriteBody.t :=
  {| Response.status := 200;
     Response.text := inr "";
     Response.json := inr (Some body_empty_rewrite) |}.

(** The network could not be reached. *)
Definition failed_to_fetch : Thrown := Error_ "Failed to fetch".

(** A rewrite of "B" has been requested and has not settled. *)
Definition world_B_loading : World :=
  run (rewriteSentence (app (init DEFAULT_API_BASE)) "B" "plain_english")
      (init DEFAULT_API_BASE).

(** The rewrite of "B" has come back. *)
Definition world_B_success : World :=
  run (rewriteSentence_settled "B" (Resolved response_simpler_B))
      (settle 0 world_B_loading).

(** The full client after report.pdf was analysed successfully. *)
Definition world_done : World :=
  let picked := run (onPickFile (Some file_report)) (init DEFAULT_API_BASE) in
  let asked := run (analyzePdf (app picked)) picked in
  run (analyzePdf_settled (Resolved response_ABC)) (settle 0 asked).



(** ** The rest of the two clients *)

(** *** The API base *)

(** const API_BASE =
      (process.env.REACT_APP_API_BASE || DEFAULT_API_BASE).replace(/\/$/, "") *)
Definition API_BASE (env : option string) : string :=
  strip_trailing_slash (or_else env DEFAULT_API_BASE).

(** The address a request goes to: `${apiBase}/analyze`, `${apiBase}/rewrite`. *)
Definition url (r : Request) : string :=
  match r with
  | PostAnalyze base _ => base +:+ "/analyze"
  | PostRewrite base _ _ => base +:+ "/rewrite"
  end.

(** *** What the page shows of the session *)

(** disabled={loading || !file} *)
Definition analyze_disabled (s : AppState) : bool :=
  loading s || match file s with Some _ => false | None => true end.

(** A click on the Analyze button: none is delivered while it is disabled. *)
Definition click_analyze (rendered : AppState) : Js World unit :=
  if analyze_disabled rendered then mret tt else analyzePdf rendered.

(** *** Runs driven through the page

    The user picks files, moves the filters, edits the API base and clicks
    buttons; calls in flight settle.  A card is offered for any sentence
    here, which is more than the page shows. *)
Inductive UiEvent :=
| UiPickFile (f : option File)
| UiMinRisk (v : Z)
| UiTopN (v : Z)
| UiApiBase (value : string)
| UiClickAnalyze
| UiClickRewrite (sentence : string)
| UiSettleAnalyze (i : nat) (r : Settled AnalysisResult)
| UiSettleRewrite (i : nat) (r : Settled RewriteBody.t).

Definition ui_step (ev : UiEvent) (w : World) : option World :=
  match ev with
  | UiPickFile f => Some (run (onPickFile f) w)
  | UiMinRisk v => Some (run (setMinRisk v) w)
  | UiTopN v => Some (run (setTopN v) w)
  | UiApiBase v => Some (run (onChangeApiBase v) w)
  | UiClickAnalyze => Some (run (click_analyze (app w)) w)
  | UiClickRewrite s => Some (run (click_rewrite (app w) s) w)
  | UiSettleAnalyze i r =>
      match pending w !! i with
      | Some (PostAnalyze _ _) => Some (run (analyzePdf_settled r) (settle i w))
      | _ => None
      end
  | UiSettleRewrite i r =>
      match pending w !! i with
      | Some (PostRewrite _ s _) =>
          Some (run (rewriteSentence_settled s r) (settle i w))
      | _ => None
      end
  end.

Inductive ui_reachable (base : string) : World → Prop :=
| ui_reachable_init : ui_reachable base (init base)
| ui_reachable_step ev w w' :
    ui_reachable base w → ui_step ev w = Some w' → ui_reachable base w'.

Definition is_analyze (r : Request) : bool :=
  match r with PostAnalyze _ _ => true | PostRewrite _ _ _ => false end.

(** The number of [/analyze] calls in flight. *)
Definition analyses_in_flight (w : World) : nat :=
  length (List.filter is_analyze (pending w)).

(** On runs through the page the loading flag counts the [/analyze] calls
    in flight. *)
Definition loading_counts (w : World) : Prop :=
  analyses_in_flight w = if loading (app w) then 1%nat else 0%nat.

(** *** The page of the minimal client *)

(** [Array.prototype.join(sep)] on an array of strings. *)
Fixpoint Array_join (sep : string) (l : list string) : string :=
  match l with
  | [] => ""
  | [x] => x
  | x :: rest => x +:+ sep +:+ Array_join sep rest
  end.

Module MinimalView.

(** Two line feeds. *)
Definition blank_line : string :=
  String (Ascii.ascii_of_nat 10) (String (Ascii.ascii_of_nat 10) EmptyString).

(** if (!result?.top_risk_sentences) return "";
    return result.top_risk_sentences.map((x) => x.sentence).join(blank_line) *)
Definition hotspotText (result : option AnalysisResult) : string :=
  match result ≫= top_risk_sentences with
  | None => ""
  | Some top => Array_join blank_line (map sentence top)
  end.

(** Array.isArray(result?.top_risk_sentences) ? result.top_risk_sentences : [] *)
Definition top (result : option AnalysisResult) : list ScoredSentence :=
  default [] (result ≫= top_risk_sentences).

(** The hotspots listed: top.slice(0, 5) *)
Definition listed (result : option AnalysisResult) : list ScoredSentence :=
  Array_slice 0 5 (top result).

(** disabled={!file || status === "analyzing"} *)
Definition analyze_disabled (s : Minimal.AppState) : bool :=
  match Minimal.file s with Some _ => false | None => true end
  || bool_decide (Minimal.status s = "analyzing").

End MinimalView.

(** *** More example inputs *)

(** The backend names its own two hotspots, in its own order. *)
Definition analysis_shortlist : AnalysisResult :=
  {| grade_level := None; reading_time_minutes := None;
     total_sentences := Some 3; average_risk_score := None;
     all_sentences := Some [sentence_A; sentence_B; sentence_C];
     top_risk_sentences := Some [sentence_C; sentence_B] |}.

(** report.pdf has been picked and Analyze clicked; the call is in flight. *)
Definition world_analyzing : World :=
  let picked := run (onPickFile (Some file_report)) (init DEFAULT_API_BASE) in
  run (click_analyze (app picked)) picked.

(** *** A click handled by an older render *)

(** After the analysis of report.pdf a rewrite of "B" is requested. *)
Definition world_rewriting : World :=
  run (rewriteSentence (app world_done) "B" "plain_english") world_done.

(** The file is submitted again while the rewrite is in flight. *)
Definition world_resubmitted : World :=
  run (analyzePdf (app world_rewriting)) world_rewriting.

(** The second analysis succeeds: the cache is emptied, the rewrite of "B"
    is still in flight. *)
Definition world_reanalysed : World :=
  run (analyzePdf_settled (Resolved response_ABC)) (settle 1 world_resubmitted).

(** The rewrite of "B" comes back. *)
Definition world_late_rewrite : World :=
  run (rewriteSentence_settled "B" (Resolved response_simpler_B))
      (settle 0 world_reanalysed).

(** The button of "B" is clicked, and the click is handled by the render
    from before the rewrite came back. *)
Definition world_late_click : World :=
  run (rewriteSentence (app world_reanalysed) "B" "plain_english")
      world_late_rewrite.

(** The events of that run, each with the render whose handler runs. *)
Definition run_late_click : list (nat * Event) :=
  [ (0%nat, PickFile (Some file_report));
    (0%nat, CallAnalyze);
    (0%nat, SettleAnalyze 0 (Resolved response_ABC));
    (0%nat, CallRewrite "B" "plain_english");
    (0%nat, CallAnalyze);
    (0%nat, SettleAnalyze 1 (Resolved response_ABC));
    (0%nat, SettleRewrite 0 (Resolved response_simpler_B));
    (1%nat, CallRewrite "B" "plain_english") ].

(** A rewrite of "B" is requested and fails. *)
Definition world_B_failed : World :=
  run (rewriteSentence_settled "B" (Rejected failed_to_fetch))
      (settle 0 world_B_loading).

Definition run_B_failed : list (nat * Event) :=
  [ (0%nat, CallRewrite "B" "plain_english");
    (0%nat, SettleRewrite 0 (Rejected failed_to_fetch)) ].

(** *** The view for any number the topN field can hold

    [setTopN(Number(e.target.value))] stores whatever number the field
    holds: a fraction (1.5) as well as a whole number.  The state above
    keeps whole numbers; here the view is computed for every number value
    of JS. *)

(** A number of JS: NaN, an infinity, or a finite number. *)
Inductive Num :=
| NaN
| Infinity (negative : bool)
| Finite (q : Q).

(** Truthiness of a number: neither zero nor NaN. *)
Definition truthy_num (x : Num) : bool :=
  match x with
  | NaN => false
  | Infinity _ => true
  | Finite q => negb (Qeq_bool q 0)
  end.

(** x || d *)
Definition or_num (x d : Num) : Num := if truthy_num x then x else d.

Definition Math_min (x y : Num) : Num :=
  match x, y with
  | NaN, _ | _, NaN => NaN
  | Infinity true, _ | _, Infinity true => Infinity true
  | Infinity false, z | z, Infinity false => z
  | Finite p, Finite q => Finite (Qmin p q)
  end.

Definition Math_max (x y : Num) : Num :=
  match x, y with
  | NaN, _ | _, NaN => NaN
  | Infinity false, _ | _, Infinity false => Infinity false
  | Infinity true, z | z, Infinity true => z
  | Finite p, Finite q => Finite (Qmax p q)
  end.

(** clamp on numbers: Math.max(a, Math.min(b, n)) *)
Definition clamp_num (n a b : Num) : Num := Math_max a (Math_min b n).

(** ToIntegerOrInfinity on a finite number: the fraction is dropped. *)
Definition to_integer (q : Q) : Z :=
  if Qle_bool 0 q then Qfloor q else Qceiling q.

(** [l.slice(0, end_)] for a number [end_]: NaN counts as 0, the infinities
    are the two ends of the array. *)
Definition slice_to {A} (end_ : Num) (l : list A) : list A :=
  match end_ with
  | NaN => Array_slice 0 0 l
  | Infinity true => []
  | Infinity false => l
  | Finite q => Array_slice 0 (to_integer q) l
  end.

(** const n = clamp(Number(topN) || 10, 1, 200);
    return filtered.slice(0, n); *)
Definition topShown_num (analysis : option AnalysisResult) (minRisk : Z)
    (topN : Num) : list ScoredSentence :=
  let n := clamp_num (or_num topN (Finite 10)) (Finite 1) (Finite 200) in
  slice_to n (filtered analysis minRisk).

(** * Properties *)

(** ** Arrays *)

Section ArrayFacts.
Context {A : Type}.
Implicit Types (l : list A) (cmp : A → A → Z).

Lemma sort_insert_perm cmp x l : sort_insert cmp x l ≡ₚ x :: l.
Proof.
  induction l as [|y l IH]; simpl; [done|].
  case_decide; [done|].
  rewrite IH. apply Permutation_swap.
Qed.

Lemma Array_sort_perm cmp l : Array_sort cmp l ≡ₚ l.
Proof.
  induction l as [|x l IH]; simpl; [done|].
  fold (Array_sort cmp l). by rewrite sort_insert_perm, IH.
Qed.

Lemma Array_filter_sublist (p : A → bool) l : Array_filter p l `sublist_of` l.
Proof.
  induction l as [|x l IH]; simpl; [constructor|].
  destruct (p x); by constructor.
Qed.

Lemma Array_filter_Forall (p : A → bool) l :
  Forall (fun x => p x = true) (Array_filter p l).
Proof.
  induction l as [|x l IH]; simpl; [constructor|].
  destruct (p x) eqn:Hp; [by constructor|done].
Qed.

Lemma Array_slice_prefix (n : Z) l :
  0 ≤ n → Array_slice 0 n l = take (Z.to_nat n) l.
Proof.
  intros Hn. unfold Array_slice, rel_index.
  repeat case_decide; try lia.
  replace (Z.to_nat (Z.min 0 (Z.of_nat (length l)))) with 0%nat by lia.
  rewrite drop_0.
  destruct (decide (n ≤ Z.of_nat (length l))).
  - f_equal. lia.
  - rewrite !take_ge by lia. done.
Qed.

Lemma Array_slice_prefix_sublist (n : Z) l :
  0 ≤ n → Array_slice 0 n l `sublist_of` l.
Proof. intros. rewrite Array_slice_prefix by done. apply sublist_take. Qed.

Lemma Array_slice_prefix_length (n : Z) l :
  0 ≤ n → Z.of_nat (length (Array_slice 0 n l)) ≤ n.
Proof. intros. rewrite Array_slice_prefix, length_take by done. lia. Qed.

End ArrayFacts.

(** ** The sort of [allSorted] *)

Lemma by_score_desc_le x y : by_score_desc x y ≤ 0 ↔ rank y ≤ rank x.
Proof. unfold by_score_desc, rank. lia. Qed.

Lemma sort_insert_sorted x l :
  StronglySorted (fun a b => rank b ≤ rank a) l →
  StronglySorted (fun a b => rank b ≤ rank a) (sort_insert by_score_desc x l).
Proof.
  induction 1 as [|y l Hl IH Hy]; simpl.
  - repeat constructor.
  - case_decide as Hc; rewrite by_score_desc_le in Hc.
    + constructor; [by constructor|].
      constructor; [done|].
      eapply Forall_impl; [exact Hy|]. simpl. intros; lia.
    + constructor; [done|].
      rewrite sort_insert_perm. constructor; [lia|done].
Qed.

Lemma Array_sort_sorted l :
  StronglySorted (fun a b => rank b ≤ rank a) (Array_sort by_score_desc l).
Proof.
  induction l as [|x l IH]; simpl; [constructor|].
  by apply sort_insert_sorted.
Qed.

Lemma sort_insert_ties v x l :
  filter (fun a => rank a = v) (sort_insert by_score_desc x l)
  = filter (fun a => rank a = v) (x :: l).
Proof.
  induction l as [|y l IH]; simpl; [done|].
  case_decide as Hc; [done|]. rewrite by_score_desc_le in Hc.
  rewrite (filter_cons _ y), IH, !(filter_cons _ x), !(filter_cons _ y).
  repeat case_decide; try done; lia.
Qed.

Lemma Array_sort_ties v l :
  filter (fun a => rank a = v) (Array_sort by_score_desc l)
  = filter (fun a => rank a = v) l.
Proof.
  induction l as [|x l IH]; simpl; [done|].
  fold (Array_sort by_score_desc l).
  by rewrite sort_insert_ties, !filter_cons, IH.
Qed.

Lemma Array_sort_stable l : stable_sort_desc l (Array_sort by_score_desc l).
Proof.
  split; [apply Array_sort_perm|].
  split; [apply Array_sort_sorted|]. intros; apply Array_sort_ties.
Qed.

(** There is only one stable descending sort of a list, so the engine's
    choice of algorithm does not show. *)
Lemma stable_sort_desc_unique l l1 l2 :
  stable_sort_desc l l1 → stable_sort_desc l l2 → l1 = l2.
Proof.
  intros (_ & S1 & T1) (_ & S2 & T2).
  assert (T : ∀ v, filter (fun x => rank x = v) l1
                   = filter (fun x => rank x = v) l2)
    by (intros; by rewrite T1, T2).
  clear T1 T2 l. revert l2 S2 T.
  induction S1 as [|x l1 _ IH Hx]; intros l2 S2 T.
  - destruct l2 as [|y l2]; [done|].
    specialize (T (rank y)). rewrite filter_cons_True in T by done. done.
  - destruct S2 as [|y l2 S2 Hy].
    + specialize (T (rank x)). rewrite filter_cons_True in T by done. done.
    + assert (rank x = rank y) as E.
      { assert (x ∈ y :: l2) as Hin.
        { eapply (list_elem_of_filter (fun a => rank a = rank x)).
          rewrite <- T, filter_cons_True by done. left. }
        assert (y ∈ x :: l1) as Hin'.
        { eapply (list_elem_of_filter (fun a => rank a = rank y)).
          rewrite T, filter_cons_True by done. left. }
        rewrite Forall_forall in Hx, Hy.
        apply elem_of_cons in Hin as [->|Hin]; [done|].
        apply elem_of_cons in Hin' as [->|Hin']; [done|].
        specialize (Hx _ Hin'). specialize (Hy _ Hin). lia. }
      pose proof (T (rank x)) as T0.
      rewrite filter_cons_True, (filter_cons_True _ y) in T0 by done.
      injection T0 as -> T0. f_equal. apply IH; [done|].
      intros v. specialize (T v). rewrite !(filter_cons _ y) in T.
      case_decide; congruence.
Qed.

(** The spec's example: minRisk=4, topN=10 shows B then C. *)
Example topShown_ABC :
  topShown (Some analysis_ABC) 4 10 = [sentence_B; sentence_C].
Proof. reflexivity. Qed.

Lemma allSorted_eq analysis :
  allSorted analysis
  = Array_sort by_score_desc (default [] (analysis ≫= all_sentences)).
Proof. unfold allSorted. by destruct (analysis ≫= all_sentences). Qed.

Lemma js_or_topN topN : js_or topN 10 = if decide (topN = 0) then 10 else topN.
Proof. unfold js_or, truthy, truthy_Z. by case_decide. Qed.

Lemma js_or_minRisk minRisk : js_or minRisk 0 = minRisk.
Proof. unfold js_or, truthy, truthy_Z. by case_decide. Qed.

(** The copy is a new array: sorting it leaves every array that existed
    before as it was. *)
Lemma Mem_allSorted_frame (h : gmap nat (list ScoredSentence)) (src : nat) :
  (fst (Mem.allSorted (Some src) h) ∉ dom h)
  ∧ (∀ r, r ∈ dom h → snd (Mem.allSorted (Some src) h) !! r = h !! r)
  ∧ snd (Mem.allSorted (Some src) h) !! fst (Mem.allSorted (Some src) h)
    = Some (Array_sort by_score_desc (default [] (h !! src))).
Proof.
  unfold Mem.allSorted, Mem.alloc, Mem.sort_at, Mem.fresh_ref.
  cbn [fst snd].
  pose proof (is_fresh (dom h)) as Hf. set (arr := fresh (dom h)) in *.
  split; [done|]. split.
  - intros r Hr. assert (arr ≠ r) by (intros ->; done).
    by rewrite lookup_alter_ne, lookup_insert_ne.
  - by rewrite lookup_alter_eq, lookup_insert_eq.
Qed.

(** C2 (as amended): topN=500 shows what topN=200 shows; topN=0 is taken
    for a missing value and shows what the default topN=10 shows; in general
    the view is the one of the value clamped to [1,200], where 0 counts
    as 10. *)
Theorem C2_topN_clamped_zero_is_default
    (analysis : option AnalysisResult) (minRisk : Z) :
  topShown analysis minRisk 500 = topShown analysis minRisk 200
  ∧ topShown analysis minRisk 0 = topShown analysis minRisk 10
  ∧ ∀ topN,
      topShown analysis minRisk topN
      = topShown analysis minRisk
          (clamp (if decide (topN = 0) then 10 else topN) 1 200).
Proof.
  split; [reflexivity|]. split; [reflexivity|].
  intros topN. unfold topShown. rewrite !js_or_topN.
  f_equal. unfold clamp. repeat case_decide; lia.
Qed.

(** C2, as stated, fails: with two sentences at or above the threshold,
    topN=0 shows both and topN=1 shows one. *)
Lemma C2_topN_zero_is_not_one :
  topShown (Some analysis_ABC) 1 0 = [sentence_B; sentence_C; sentence_A]
  ∧ topShown (Some analysis_ABC) 1 1 = [sentence_B]
  ∧ topShown (Some analysis_ABC) 1 0 ≠ topShown (Some analysis_ABC) 1 1.
Proof. split; [reflexivity|]. split; [reflexivity|]. discriminate. Qed.

(** C4 (as amended): the view is a subsequence of the stable
    descending-by-score sort of all_sentences (absent score compared as 0),
    each of its elements has score >= clamp(minRisk, 0, 999), its length is
    at most clamp(topN, 1, 200) with topN=0 counted as the default 10, and
    sorting works on a copy: the array all_sentences is left as it was. *)
Theorem C4_view_sorted_filtered_bounded
    (analysis : option AnalysisResult) (minRisk topN : Z) :
  let all := default [] (analysis ≫= all_sentences) in
  let view := topShown analysis minRisk topN in
  (∃ sorted, stable_sort_desc all sorted
             ∧ (∀ l, stable_sort_desc all l → l = sorted)
             ∧ view `sublist_of` sorted)
  ∧ Forall (fun x => clamp minRisk 0 999 ≤ rank x) view
  ∧ Z.of_nat (length view)
    ≤ clamp (if decide (topN = 0) then 10 else topN) 1 200
  ∧ ∀ (h : gmap nat (list ScoredSentence)) (src : nat),
      h !! src = Some all →
      snd (Mem.allSorted (Some src) h) !! src = Some all
      ∧ snd (Mem.allSorted (Some src) h) !! fst (Mem.allSorted (Some src) h)
        = Some (allSorted analysis).
Proof.
  intros all view. subst view. unfold topShown, filtered.
  rewrite js_or_topN, js_or_minRisk, allSorted_eq. fold all.
  set (n := clamp _ 1 200). assert (0 ≤ n) by (unfold n, clamp; lia).
  split; [|split; [|split]].
  - exists (Array_sort by_score_desc all).
    split; [apply Array_sort_stable|]. split.
    + intros l Hl. eapply stable_sort_desc_unique; [exact Hl|].
      apply Array_sort_stable.
    + etrans; [by apply Array_slice_prefix_sublist|].
      apply Array_filter_sublist.
  - rewrite Array_slice_prefix by done. apply Forall_take.
    eapply Forall_impl; [apply Array_filter_Forall|].
    simpl. intros x Hx. by apply bool_decide_eq_true in Hx.
  - by apply Array_slice_prefix_length.
  - intros h src E. destruct (Mem_allSorted_frame h src) as (Hf & Hfr & Hs).
    split.
    + rewrite Hfr, E; [done|]. apply elem_of_dom; eauto.
    + rewrite Hs, E. done.
Qed.

Lemma C4_view_witness :
  store_ABC !! 0%nat = Some [sentence_A; sentence_B; sentence_C]
  ∧ snd (Mem.allSorted (Some 0%nat) store_ABC) !! 0%nat
    = Some [sentence_A; sentence_B; sentence_C].
Proof.
  split; [reflexivity|].
  apply (C4_view_sorted_filtered_bounded (Some analysis_ABC) 4 10).
  reflexivity.
Defined.

(** C4, as stated, fails in its length bound: at topN=0 the view has three
    elements, and clamp(0, 1, 200) is 1. *)
Lemma C4_length_at_topN_zero :
  Z.of_nat (length (topShown (Some analysis_ABC) 1 0)) = 3
  ∧ clamp 0 1 200 = 1
  ∧ ¬ Z.of_nat (length (topShown (Some analysis_ABC) 1 0)) ≤ clamp 0 1 200.
Proof. split; [reflexivity|]. split; [reflexivity|]. vm_compute. by intros H. Qed.

(** ** Handlers *)

(** The decimal text of a status is not to be unfolded on a variable. *)
#[local] Arguments pretty : simpl never.

(** Run a handler on a symbolic world. *)
Ltac js_unfold :=
  unfold run, state_after, outcome,
    analyzePdf, analyzePdf_settled, analyzePdf_try, analyzePdf_catch,
    onPickFile, rewriteSentence, rewriteSentence_settled,
    rewriteSentence_try, rewriteSentence_catch, click_rewrite,
    finally, try_catch, await, await_fetch, throw, fetch,
    setFile, setFileName, setLoading, setStatusPill, setError, setAnalysis,
    setMinRisk, setTopN, setRewriteBySentence, on_app, modify,
    mbind, mret, Js_bind, Js_ret.

Ltac js_run := js_unfold; cbn.

Ltac js_unfold_in H :=
  unfold run, state_after, outcome,
    analyzePdf, analyzePdf_settled, analyzePdf_try, analyzePdf_catch,
    onPickFile, rewriteSentence, rewriteSentence_settled,
    rewriteSentence_try, rewriteSentence_catch, click_rewrite,
    finally, try_catch, await, await_fetch, throw, fetch,
    setFile, setFileName, setLoading, setStatusPill, setError, setAnalysis,
    setMinRisk, setTopN, setRewriteBySentence, on_app, modify,
    mbind, mret, Js_bind, Js_ret in H.

Lemma truthy_string_nonempty (s : string) : truthy s = true ↔ s ≠ "".
Proof. unfold truthy, truthy_string. case_decide; split; congruence. Qed.

Lemma js_or_nonempty (s d : string) : s ≠ "" → js_or s d = s.
Proof. intros H. unfold js_or. by apply truthy_string_nonempty in H as ->. Qed.

Lemma truthy_empty : truthy "" = false.
Proof. reflexivity. Qed.

Lemma js_or_empty (d : string) : js_or "" d = d.
Proof. reflexivity. Qed.




(** C7: a successful submit stores the new AnalysisResult and, in the same
    transition, resets the filters to minRisk=1 and topN=10 and empties the
    rewrite cache, so that getEntry is Idle for every sentence. *)
Theorem C7_successful_submit_resets_session
    (w : World) (res : Response.t AnalysisResult)
    (data : option AnalysisResult) :
  Response.ok res = true →
  Response.json res = inr data →
  let p := analyzePdf_settled (Resolved res) w in
  outcome p = inr tt
  ∧ analysis (app (state_after p)) = data
  ∧ statusPill (app (state_after p)) = "Done"
  ∧ loading (app (state_after p)) = false
  ∧ minRisk (app (state_after p)) = 1
  ∧ topN (app (state_after p)) = 10
  ∧ rewriteBySentence (app (state_after p)) = ∅
  ∧ ∀ sentence,
      getEntry (rewriteBySentence (app (state_after p))) sentence = Idle.
Proof.
  intros Hok Hjson. js_run. rewrite Hok, Hjson. cbn.
  repeat split.
Qed.

Lemma C7_successful_submit_witness :
  Response.ok response_ABC = true
  ∧ Response.json response_ABC = inr (Some analysis_ABC)
  ∧ rewriteBySentence (app world_B_success) !! "B" ≠ None
  ∧ getEntry
      (rewriteBySentence
         (app (state_after
                 (analyzePdf_settled (Resolved response_ABC) world_B_success))))
      "B" = Idle.
Proof.
  split; [reflexivity|]. split; [reflexivity|]. split; [discriminate|].
  apply (C7_successful_submit_resets_session
           world_B_success response_ABC (Some analysis_ABC));
    reflexivity.
Defined.

(** C8 (as amended): submit with no file selected makes no network call
    and does not throw; the failure is shown as the session-level error
    banner, and the status indicator, like everything else, is left as it
    was. *)
Theorem C8_submit_without_file (rendered : AppState) (w : World) :
  file rendered = None →
  let p := analyzePdf rendered w in
  outcome p = inr tt
  ∧ sent (state_after p) = sent w
  ∧ pending (state_after p) = pending w
  ∧ error (app (state_after p)) = "Choose a PDF first."
  ∧ statusPill (app (state_after p)) = statusPill (app w)
  ∧ loading (app (state_after p)) = loading (app w)
  ∧ analysis (app (state_after p)) = analysis (app w)
  ∧ rewriteBySentence (app (state_after p)) = rewriteBySentence (app w)
  ∧ minRisk (app (state_after p)) = minRisk (app w)
  ∧ topN (app (state_after p)) = topN (app w).
Proof. intros Hf. js_run. rewrite Hf. cbn. repeat split. Qed.

Lemma C8_submit_without_file_witness :
  file (app (init DEFAULT_API_BASE)) = None
  ∧ error (app (state_after (analyzePdf (app (init DEFAULT_API_BASE))
                                        (init DEFAULT_API_BASE))))
    = "Choose a PDF first.".
Proof.
  split; [reflexivity|].
  apply (C8_submit_without_file (app (init DEFAULT_API_BASE))
           (init DEFAULT_API_BASE)).
  reflexivity.
Defined.

(** C8, as stated, fails: on a fresh page with no file chosen, submit
    leaves the status at Idle; it is not set to Error. *)
Lemma C8_status_is_not_set_to_Error :
  file (app (init DEFAULT_API_BASE)) = None
  ∧ statusPill (app (run (analyzePdf (app (init DEFAULT_API_BASE)))
                         (init DEFAULT_API_BASE))) = "Idle"
  ∧ statusPill (app (run (analyzePdf (app (init DEFAULT_API_BASE)))
                         (init DEFAULT_API_BASE))) ≠ "Error".
Proof. split; [reflexivity|]. split; [reflexivity|]. discriminate. Qed.

(** ** The rewrite cache *)

Lemma extract_first_nonempty (body : RewriteBody.t) :
  extract (Some body)
  = first_nonempty [RewriteBody.rewrite body; RewriteBody.rewritten body;
                    RewriteBody.text body].
Proof.
  destruct body as [[a|] [b|] [c|]];
    cbv [extract or_else js_or truthy truthy_option truthy_string]; cbn;
    repeat (case_decide; subst; cbn; try done); reflexivity.
Qed.

(** C6 (as amended): for a well-formed 2xx /rewrite body, the extracted
    output is the first field, in the order rewrite, rewritten, text, that
    is present and not empty; if there is none, the stored entry is a
    Success whose output is the placeholder "(empty rewrite)", neither an
    empty success nor an error. *)
Theorem C6_extraction_order_and_placeholder
    (w : World) (key : string) (res : Response.t RewriteBody.t)
    (body : RewriteBody.t) :
  Response.ok res = true →
  Response.json res = inr (Some body) →
  let p := rewriteSentence_settled key (Resolved res) w in
  let found := first_nonempty [RewriteBody.rewrite body;
                               RewriteBody.rewritten body;
                               RewriteBody.text body] in
  let shown := if decide (found = "") then "(empty rewrite)" else found in
  extract (Some body) = found
  ∧ rewriteBySentence (app (state_after p)) !! key
    = Some {| RewriteState.loading := false; RewriteState.error := "";
              RewriteState.output := shown |}
  ∧ shown ≠ ""
  ∧ getEntry (rewriteBySentence (app (state_after p))) key = Success shown.
Proof.
  intros Hok Hjson p found shown. subst p.
  assert (shown ≠ "") as Hshown by (unfold shown; by case_decide).
  assert (js_or (extract (Some body)) "(empty rewrite)" = shown) as Hout.
  { rewrite extract_first_nonempty. fold found. unfold shown, js_or.
    unfold truthy, truthy_string. by case_decide. }
  split; [apply extract_first_nonempty|].
  js_run. rewrite Hok, Hjson. cbn. rewrite Hout.
  split; [apply lookup_insert_eq|]. split; [done|].
  unfold getEntry, SentenceCard. rewrite lookup_insert_eq. cbn.
  rewrite js_or_empty, (js_or_nonempty shown) by done.
  apply truthy_string_nonempty in Hshown. by rewrite Hshown.
Qed.

Lemma C6_extraction_witness :
  Response.ok response_simpler_B = true
  ∧ rewriteBySentence
      (app (state_after (rewriteSentence_settled "B"
                           (Resolved response_simpler_B)
                           (settle 0 world_B_loading)))) !! "B"
    = Some {| RewriteState.loading := false; RewriteState.error := "";
              RewriteState.output := "Simpler B." |}.
Proof.
  split; [reflexivity|].
  apply (C6_extraction_order_and_placeholder (settle 0 world_B_loading) "B"
           response_simpler_B
           {| RewriteBody.rewrite := Some "Simpler B.";
              RewriteBody.rewritten := None; RewriteBody.text := None |});
    reflexivity.
Defined.

(** C6, as stated, fails: in the body {"rewrite":"","rewritten":"Simpler."}
    the first present field is [rewrite], which is empty, so the claim has
    the placeholder stored; the code skips the empty field and stores
    "Simpler.". *)
Lemma C6_present_but_empty_field_is_skipped :
  first_present body_empty_rewrite = ""
  ∧ extract (Some body_empty_rewrite) = "Simpler."
  ∧ rewriteBySentence
      (app (run (rewriteSentence_settled "B" (Resolved response_empty_rewrite))
                (settle 0 world_B_loading))) !! "B"
    = Some {| RewriteState.loading := false; RewriteState.error := "";
              RewriteState.output := "Simpler." |}
  ∧ extract (Some body_empty_rewrite) ≠ first_present body_empty_rewrite.
Proof.
  split; [reflexivity|]. split; [reflexivity|]. split; [reflexivity|].
  discriminate.
Qed.

(** C1 (as amended): rewriteSentence does not look at the loading flag: for
    a key in the Loading state a second call issues a second /rewrite
    request.  What keeps a request in flight from being duplicated is the
    card: while the entry is Loading its button is disabled, and a click on
    it calls nothing. *)
Theorem C1_loading_is_deduplicated_by_the_card_only
    (rendered : AppState) (w : World) (sentence mode : string) :
  rewriteBySentence rendered !! sentence
    = Some {| RewriteState.loading := true; RewriteState.error := "";
              RewriteState.output := "" |} →
  getEntry (rewriteBySentence rendered) sentence = Loading
  ∧ sent (run (rewriteSentence rendered sentence mode) w)
    = (sent w ++ [PostRewrite (apiBase rendered) sentence mode])%list
  ∧ pending (run (rewriteSentence rendered sentence mode) w)
    = (pending w ++ [PostRewrite (apiBase rendered) sentence mode])%list
  ∧ disabled (SentenceCard (rewriteBySentence rendered !! sentence)) = true
  ∧ click_rewrite rendered sentence w = (inr tt, w).
Proof.
  intros He. unfold getEntry, click_rewrite, SentenceCard. rewrite He. cbn.
  split; [done|]. js_run. rewrite He. cbn. done.
Qed.

Lemma C1_loading_witness :
  rewriteBySentence (app world_B_loading) !! "B"
    = Some {| RewriteState.loading := true; RewriteState.error := "";
              RewriteState.output := "" |}
  ∧ click_rewrite (app world_B_loading) "B" world_B_loading
    = (inr tt, world_B_loading).
Proof.
  split; [reflexivity|].
  apply (C1_loading_is_deduplicated_by_the_card_only
           (app world_B_loading) world_B_loading "B" "plain_english").
  reflexivity.
Defined.

(** C1, as stated, fails: a second rewriteSentence("B") while the first is
    Loading sends a second request, and two calls for "B" are in flight. *)
Lemma C1_second_call_sends_a_second_request :
  getEntry (rewriteBySentence (app world_B_loading)) "B" = Loading
  ∧ pending world_B_loading
    = [PostRewrite DEFAULT_API_BASE "B" "plain_english"]
  ∧ pending (run (rewriteSentence (app world_B_loading) "B" "plain_english")
                 world_B_loading)
    = [PostRewrite DEFAULT_API_BASE "B" "plain_english";
       PostRewrite DEFAULT_API_BASE "B" "plain_english"]
  ∧ sent (run (rewriteSentence (app world_B_loading) "B" "plain_english")
              world_B_loading)
    ≠ sent world_B_loading.
Proof.
  split; [reflexivity|]. split; [reflexivity|]. split; [reflexivity|].
  discriminate.
Qed.

Lemma or_else_nonempty (x : option string) (d : string) :
  d ≠ "" → or_else x d ≠ "".
Proof.
  intros Hd. destruct x as [s|]; [|done]. unfold or_else, js_or.
  destruct (truthy s) eqn:E; [|done]. by apply truthy_string_nonempty.
Qed.

Lemma js_or_default_nonempty (s d : string) : d ≠ "" → js_or s d ≠ "".
Proof. apply (or_else_nonempty (Some s)). Qed.

(** A settled call writes one value under its key, and the value is an
    Error or a Success. *)
Lemma rewriteSentence_settled_writes key (r : Settled RewriteBody.t) :
  ∃ e, (Error_shape e ∨ Success_shape e)
       ∧ ∀ w, rewriteSentence_settled key r w
              = (inr tt, run (setRewriteBySentence (insert key e)) w).
Proof.
  destruct r as [e|res].
  - eexists. split; [|intros w; js_run; reflexivity].
    left. repeat split. by apply or_else_nonempty.
  - destruct (Response.ok res) eqn:Hok.
    + destruct (Response.json res) as [e|data] eqn:Hjson.
      * eexists. split;
          [|intros w; js_run; rewrite Hok, Hjson; cbn; reflexivity].
        left. repeat split. by apply or_else_nonempty.
      * eexists. split;
          [|intros w; js_run; rewrite Hok, Hjson; cbn; reflexivity].
        right. repeat split. by apply js_or_default_nonempty.
    + destruct (Response.text res) as [e|txt] eqn:Htxt.
      * eexists. split;
          [|intros w; js_run; rewrite Hok, Htxt; cbn; reflexivity].
        left. repeat split. by apply js_or_default_nonempty.
      * eexists. split;
          [|intros w; js_run; rewrite Hok, Htxt; cbn; reflexivity].
        left. repeat split. by apply js_or_default_nonempty.
Qed.

(** C9: the completion of a /rewrite call for a key changes the cache
    entry of that key only: the entry of any other key, the session error,
    the status and the stored AnalysisResult stay as they are; each update
    is applied to the cache as it is then, so the completions of two
    different keys both take effect, in either order. *)
Theorem C9_completion_touches_its_own_entry_only
    (w : World) (k k' : string) (r r' : Settled RewriteBody.t) :
  k ≠ k' →
  let w1 := run (rewriteSentence_settled k r) w in
  let w2 := run (rewriteSentence_settled k' r') w in
  let w12 := run (rewriteSentence_settled k' r') w1 in
  let w21 := run (rewriteSentence_settled k r) w2 in
  outcome (rewriteSentence_settled k r w) = inr tt
  ∧ rewriteBySentence (app w1) !! k' = rewriteBySentence (app w) !! k'
  ∧ error (app w1) = error (app w)
  ∧ statusPill (app w1) = statusPill (app w)
  ∧ analysis (app w1) = analysis (app w)
  ∧ loading (app w1) = loading (app w)
  ∧ (minRisk (app w1), topN (app w1)) = (minRisk (app w), topN (app w))
  ∧ (sent w1, pending w1) = (sent w, pending w)
  ∧ rewriteBySentence (app w12) !! k = rewriteBySentence (app w1) !! k
  ∧ rewriteBySentence (app w12) !! k' = rewriteBySentence (app w2) !! k'
  ∧ is_Some (rewriteBySentence (app w12) !! k)
  ∧ is_Some (rewriteBySentence (app w12) !! k')
  ∧ w12 = w21.
Proof.
  intros Hne w1 w2 w12 w21. subst w1 w2 w12 w21.
  destruct (rewriteSentence_settled_writes k r) as (e & _ & He).
  destruct (rewriteSentence_settled_writes k' r') as (e' & _ & He').
  unfold run, outcome, state_after.
  rewrite ?He, ?He'. cbn [fst snd]. rewrite ?He, ?He'. cbn [fst snd].
  unfold run, state_after, setRewriteBySentence, on_app, modify. cbn.
  rewrite !lookup_insert_eq, !lookup_insert_ne, !lookup_insert_eq by done.
  repeat split; eauto.
  by rewrite insert_insert_ne.
Qed.

Lemma C9_completion_witness :
  "B" ≠ "C"
  ∧ rewriteBySentence
      (app (run (rewriteSentence_settled "B" (Rejected failed_to_fetch))
                world_B_success)) !! "C"
    = rewriteBySentence (app world_B_success) !! "C".
Proof.
  split; [discriminate|].
  apply (C9_completion_touches_its_own_entry_only world_B_success "B" "C"
           (Rejected failed_to_fetch) (Resolved response_simpler_B)).
  discriminate.
Defined.

(** ** The cache invariant *)

Lemma shapes_exclusive e :
  Loading_shape e ∨ Error_shape e ∨ Success_shape e → one_shape e.
Proof.
  unfold one_shape, Loading_shape, Error_shape, Success_shape.
  intros [(Hl & He & Ho)|[(Hl & He & Ho)|(Hl & He & Ho)]].
  - left. repeat split; try done; intros (?&?&?); congruence.
  - right; left. repeat split; try done; intros (?&?&?); congruence.
  - right; right. repeat split; try done; intros (?&?&?); congruence.
Qed.

Lemma shapes_kept_exclusive e :
  Loading_kept_shape e ∨ Error_shape e ∨ Success_shape e → one_shape_kept e.
Proof.
  unfold one_shape_kept, Loading_kept_shape, Error_shape, Success_shape.
  intros [(Hl & He)|[(Hl & He & Ho)|(Hl & He & Ho)]].
  - left. intuition congruence.
  - right; left. intuition congruence.
  - right; right. intuition congruence.
Qed.

Lemma cache_wf_empty : cache_wf ∅.
Proof. intros key e. by rewrite lookup_empty. Qed.

Lemma cache_wf_insert cache key e :
  cache_wf cache → Loading_kept_shape e ∨ Error_shape e ∨ Success_shape e →
  cache_wf (<[key := e]> cache).
Proof.
  intros Hwf He k e'. rewrite lookup_insert. case_decide.
  - by intros [= <-].
  - apply Hwf.
Qed.

Lemma cache_strict_empty : cache_strict ∅.
Proof. intros key e. by rewrite lookup_empty. Qed.

Lemma cache_strict_insert cache key e :
  cache_strict cache → Loading_shape e ∨ Error_shape e ∨ Success_shape e →
  cache_strict (<[key := e]> cache).
Proof.
  intros Hwf He k e'. rewrite lookup_insert. case_decide.
  - by intros [= <-].
  - apply Hwf.
Qed.

(** Whatever render the handler is of: it does nothing, or it stores a
    Loading entry with the output found in the store. *)
Lemma rewriteSentence_writes (rendered : AppState) (w : World) sentence mode :
  run (rewriteSentence rendered sentence mode) w = w
  ∨ rewriteBySentence (app (run (rewriteSentence rendered sentence mode) w))
    = <[sentence :=
          {| RewriteState.loading := true;
             RewriteState.error := "";
             RewriteState.output :=
               or_else (RewriteState.output
                          <$> rewriteBySentence (app w) !! sentence) "" |}]>
        (rewriteBySentence (app w)).
Proof.
  unfold run. remember (rewriteSentence rendered sentence mode w) as p eqn:Hp.
  unfold rewriteSentence in Hp.
  destruct (truthy (RewriteState.output
                      <$> rewriteBySentence rendered !! sentence)
            && negb (truthy (RewriteState.error
                               <$> rewriteBySentence rendered !! sentence))).
  - left. by subst p.
  - right. js_unfold_in Hp. cbn in Hp. by subst p.
Qed.

(** The handler of the latest render, on a cache with no output kept. *)
Lemma rewriteSentence_wf (w : World) sentence mode :
  cache_strict (rewriteBySentence (app w)) →
  run (rewriteSentence (app w) sentence mode) w = w
  ∨ rewriteBySentence (app (run (rewriteSentence (app w) sentence mode) w))
    = <[sentence := {| RewriteState.loading := true;
                       RewriteState.error := "";
                       RewriteState.output := "" |}]>
        (rewriteBySentence (app w)).
Proof.
  intros Hwf. unfold rewriteSentence.
  destruct (rewriteBySentence (app w) !! sentence) as [e|] eqn:E; cbn.
  - destruct (Hwf _ _ E) as [(Hl & He & Ho)|[(Hl & He & Ho)|(Hl & He & Ho)]].
    + right. rewrite He, Ho, truthy_empty. js_run.
      by rewrite E; cbn; rewrite Ho.
    + right. rewrite Ho, truthy_empty. js_run.
      by rewrite E; cbn; rewrite Ho.
    + left. rewrite He. apply truthy_string_nonempty in Ho. by rewrite Ho.
  - right. js_run. by rewrite E.
Qed.

Lemma analyzePdf_settled_cache (r : Settled AnalysisResult) (w : World) :
  rewriteBySentence (app (run (analyzePdf_settled r) w)) = ∅
  ∨ rewriteBySentence (app (run (analyzePdf_settled r) w))
    = rewriteBySentence (app w).
Proof.
  destruct r as [e|res]; js_run; [by right|].
  destruct (Response.ok res); cbn.
  - destruct (Response.json res); cbn; [by right|by left].
  - destruct (Response.text res); cbn; by right.
Qed.

Lemma analyzePdf_cache (rendered : AppState) (w : World) :
  rewriteBySentence (app (run (analyzePdf rendered) w))
  = rewriteBySentence (app w).
Proof. js_run. by destruct (file rendered). Qed.

Lemma step_cache_wf rendered ev w w' :
  cache_wf (rewriteBySentence (app w)) → step rendered ev w = Some w' →
  cache_wf (rewriteBySentence (app w')).
Proof.
  intros Hwf Hstep. destruct ev as [f|v|v| |s m|i r|i r|v]; simpl in Hstep.
  - injection Hstep as <-. apply cache_wf_empty.
  - by injection Hstep as <-.
  - by injection Hstep as <-.
  - injection Hstep as <-. by rewrite analyzePdf_cache.
  - injection Hstep as <-.
    destruct (rewriteSentence_writes rendered w s m) as [-> | ->]; [done|].
    apply cache_wf_insert; [done|]. by left.
  - destruct (pending w !! i) as [[base f|base s m]|]; try done.
    injection Hstep as <-.
    destruct (analyzePdf_settled_cache r (settle i w)) as [-> | ->];
      [apply cache_wf_empty|done].
  - destruct (pending w !! i) as [[base f|base s m]|]; try done.
    injection Hstep as <-.
    destruct (rewriteSentence_settled_writes s r) as (e & He & Hrun).
    unfold run at 1, state_after. rewrite Hrun. cbn [snd].
    apply cache_wf_insert; [done|]. tauto.
  - by injection Hstep as <-.
Qed.

Lemma step_cache_strict ev w w' :
  cache_strict (rewriteBySentence (app w)) → step (app w) ev w = Some w' →
  cache_strict (rewriteBySentence (app w')).
Proof.
  intros Hwf Hstep. destruct ev as [f|v|v| |s m|i r|i r|v]; simpl in Hstep.
  - injection Hstep as <-. apply cache_strict_empty.
  - by injection Hstep as <-.
  - by injection Hstep as <-.
  - injection Hstep as <-. by rewrite analyzePdf_cache.
  - injection Hstep as <-.
    destruct (rewriteSentence_wf w s m Hwf) as [-> | ->]; [done|].
    apply cache_strict_insert; [done|]. by left.
  - destruct (pending w !! i) as [[base f|base s m]|]; try done.
    injection Hstep as <-.
    destruct (analyzePdf_settled_cache r (settle i w)) as [-> | ->];
      [apply cache_strict_empty|done].
  - destruct (pending w !! i) as [[base f|base s m]|]; try done.
    injection Hstep as <-.
    destruct (rewriteSentence_settled_writes s r) as (e & He & Hrun).
    unfold run at 1, state_after. rewrite Hrun. cbn [snd].
    apply cache_strict_insert; [done|]. tauto.
  - by injection Hstep as <-.
Qed.

Lemma reachable_cache_wf base w :
  reachable base w → cache_wf (rewriteBySentence (app w)).
Proof.
  intros [renders Hr].
  induction Hr as [|ev rendered renders w w' _ IH _ Hstep];
    [apply cache_wf_empty|].
  by eapply step_cache_wf.
Qed.

Lemma reachable_latest_cache_strict base w :
  reachable_latest base w → cache_strict (rewriteBySentence (app w)).
Proof.
  induction 1 as [|ev w w' _ IH Hstep]; [apply cache_strict_empty|].
  by eapply step_cache_strict.
Qed.

Lemma steps_reachable_with base evs renders w renders' w' :
  reachable_with base renders w →
  steps evs renders w = Some (renders', w') →
  reachable_with base renders' w'.
Proof.
  revert renders w. induction evs as [|[k ev] evs IH]; simpl;
    intros renders w Hw Hs.
  - by injection Hs as <- <-.
  - destruct (renders !! k) as [rendered|] eqn:Hk; [|done].
    destruct (step rendered ev w) as [w1|] eqn:E; [|done].
    eapply IH; [|exact Hs]. eapply reachable_step; [done| |done].
    apply list_elem_of_lookup. eauto.
Qed.

(** A run from the first render reaches its last state. *)
Lemma steps_reachable base evs w' :
  snd <$> steps evs [app (init base)] (init base) = Some w' →
  reachable base w'.
Proof.
  destruct (steps evs [app (init base)] (init base)) as [[renders w]|] eqn:E;
    [|done].
  intros [= <-]. exists renders.
  eapply steps_reachable_with; [apply reachable_init|done].
Qed.

Lemma rewriteSentence_settled_shape key (r : Settled RewriteBody.t) w :
  ∃ e, rewriteBySentence (app (run (rewriteSentence_settled key r) w)) !! key
       = Some e
       ∧ if completed_ok r then Success_shape e else Error_shape e.
Proof.
  destruct r as [e|res]; cbn.
  - eexists. js_run. rewrite lookup_insert_eq. split; [done|].
    repeat split. by apply or_else_nonempty.
  - destruct (Response.ok res) eqn:Hok; cbn.
    + destruct (Response.json res) as [e|data] eqn:Hjson.
      * eexists. js_run. rewrite Hok, Hjson. cbn.
        rewrite lookup_insert_eq. split; [done|].
        repeat split. by apply or_else_nonempty.
      * eexists. js_run. rewrite Hok, Hjson. cbn.
        rewrite lookup_insert_eq. split; [done|].
        repeat split. by apply js_or_default_nonempty.
    + destruct (Response.text res) as [e|txt] eqn:Htxt;
        eexists; js_run; rewrite Hok, Htxt; cbn;
        rewrite lookup_insert_eq; (split; [done|]);
        repeat split; by apply js_or_default_nonempty.
Qed.

Lemma reachable_late_click : reachable DEFAULT_API_BASE world_late_click.
Proof.
  apply (steps_reachable DEFAULT_API_BASE run_late_click).
  vm_compute. reflexivity.
Qed.

Lemma reachable_latest_B_loading :
  reachable_latest DEFAULT_API_BASE world_B_loading.
Proof.
  apply (reachable_latest_step _ (CallRewrite "B" "plain_english")
           (init DEFAULT_API_BASE)); [apply reachable_latest_init|].
  vm_compute. reflexivity.
Qed.

(** The runs of the latest render are among the runs. *)
Lemma reachable_latest_reachable base w :
  reachable_latest base w → reachable base w.
Proof.
  induction 1 as [|ev w w' _ [renders IH] Hstep].
  - eexists. apply reachable_init.
  - assert (app w ∈ renders) as Hin.
    { destruct IH; apply list_elem_of_here. }
    eexists. by eapply reachable_step.
Qed.

Lemma reachable_B_loading : reachable DEFAULT_API_BASE world_B_loading.
Proof. apply reachable_latest_reachable, reachable_latest_B_loading. Qed.

(** C10 (as amended): in every reachable state, whatever render the
    handlers that ran were of, no cache entry has both a non-empty error
    and a non-empty output: a successful completion stores a non-empty
    output with an empty error, a failed one a non-empty error with an
    empty output, and entering Loading stores an empty error together with
    the output that was stored under the key.  So each entry is exactly
    one of Loading (flag set, error empty), Error and Success, and a key
    without entry is Idle.  As long as every handler that runs is of the
    latest render, a Loading entry has an empty output as well. *)
Theorem C10_cache_entries_have_exactly_one_shape (base : string) (w : World) :
  reachable base w →
  (∀ key e, rewriteBySentence (app w) !! key = Some e →
            ¬ (RewriteState.error e ≠ "" ∧ RewriteState.output e ≠ "")
            ∧ one_shape_kept e)
  ∧ (∀ key, rewriteBySentence (app w) !! key = None →
            getEntry (rewriteBySentence (app w)) key = Idle)
  ∧ (∀ key r, ∃ e,
        rewriteBySentence (app (run (rewriteSentence_settled key r) w)) !! key
        = Some e
        ∧ if completed_ok r then Success_shape e else Error_shape e)
  ∧ (∀ rendered sentence mode,
        run (rewriteSentence rendered sentence mode) w = w
        ∨ rewriteBySentence
            (app (run (rewriteSentence rendered sentence mode) w)) !! sentence
          = Some {| RewriteState.loading := true; RewriteState.error := "";
                    RewriteState.output :=
                      or_else (RewriteState.output
                                 <$> rewriteBySentence (app w) !! sentence)
                              "" |})
  ∧ (reachable_latest base w →
     ∀ key e, rewriteBySentence (app w) !! key = Some e → one_shape e).
Proof.
  intros Hr. apply reachable_cache_wf in Hr as Hwf.
  split; [|split; [|split; [|split]]].
  - intros key e He. specialize (Hwf _ _ He). split.
    + intros [Herr Hout].
      destruct Hwf as [(?&?)|[(?&?&?)|(?&?&?)]]; congruence.
    + by apply shapes_kept_exclusive.
  - intros key Hk. unfold getEntry. by rewrite Hk.
  - intros key r. apply rewriteSentence_settled_shape.
  - intros rendered s m.
    destruct (rewriteSentence_writes rendered w s m) as [->| ->];
      [by left|right]. apply lookup_insert_eq.
  - intros Hl key e He. apply shapes_exclusive.
    by apply (reachable_latest_cache_strict _ _ Hl key).
Qed.

Lemma C10_cache_entries_witness :
  (reachable DEFAULT_API_BASE world_late_click
   ∧ ∀ key e, rewriteBySentence (app world_late_click) !! key = Some e →
              ¬ (RewriteState.error e ≠ "" ∧ RewriteState.output e ≠ "")
              ∧ one_shape_kept e)
  ∧ (reachable DEFAULT_API_BASE world_B_loading
     ∧ reachable_latest DEFAULT_API_BASE world_B_loading
     ∧ ∀ key e, rewriteBySentence (app world_B_loading) !! key = Some e →
                one_shape e).
Proof.
  split.
  - split; [exact reachable_late_click|].
    exact (proj1 (C10_cache_entries_have_exactly_one_shape DEFAULT_API_BASE
                    world_late_click reachable_late_click)).
  - split; [exact reachable_B_loading|].
    split; [exact reachable_latest_B_loading|].
    exact (proj2 (proj2 (proj2 (proj2
             (C10_cache_entries_have_exactly_one_shape DEFAULT_API_BASE
                world_B_loading reachable_B_loading))))
             reachable_latest_B_loading).
Defined.

(** C10, as stated, fails in its last part.  A rewrite of "B" is in flight
    when a second analysis succeeds and empties the cache; the rewrite
    comes back as a Success; the button of "B" is clicked and the click is
    handled by the render from before the rewrite came back.  Its guard
    sees no entry, its updater keeps the output of the store: the entry is
    loading with the output "Simpler B.", which is none of the Loading,
    Error and Success shapes of the claim, and the card is disabled while
    it shows the rewrite. *)
Lemma C10_loading_entry_keeps_an_output :
  reachable DEFAULT_API_BASE world_late_click
  ∧ rewriteBySentence (app world_late_click) !! "B"
    = Some {| RewriteState.loading := true; RewriteState.error := "";
              RewriteState.output := "Simpler B." |}
  ∧ ¬ one_shape {| RewriteState.loading := true; RewriteState.error := "";
                   RewriteState.output := "Simpler B." |}
  ∧ disabled (SentenceCard (rewriteBySentence (app world_late_click) !! "B"))
    = true
  ∧ out (SentenceCard (rewriteBySentence (app world_late_click) !! "B"))
    = "Simpler B.".
Proof.
  split; [exact reachable_late_click|].
  split; [vm_compute; reflexivity|].
  split; [|split; vm_compute; reflexivity].
  unfold one_shape, Loading_shape, Error_shape, Success_shape. cbn.
  intros [((_ & _ & H) & _)|[(_ & (H & _) & _)|(_ & _ & (H & _))]];
    discriminate H.
Qed.

(** ** Submitting a file *)

Lemma string_app_empty_r (s : string) : s +:+ "" = s.
Proof. induction s as [|c s IH]; [done|]. cbv [String.append]. by f_equal. Qed.

Lemma string_app_assoc (s t u : string) : (s +:+ t) +:+ u = s +:+ t +:+ u.
Proof.
  induction s as [|c s IH]; [done|].
  change (String c ((s +:+ t) +:+ u) = String c (s +:+ t +:+ u)). by f_equal.
Qed.

Lemma includes_self (sub : string) : includes sub sub.
Proof. exists "", "". by rewrite string_app_empty_r. Qed.

Lemma includes_here (sub post : string) : includes sub (sub +:+ post).
Proof. by exists "", post. Qed.

Lemma includes_app_r (pre sub s : string) :
  includes sub s → includes sub (pre +:+ s).
Proof.
  intros (pre' & post & ->). exists (pre +:+ pre'), post.
  by rewrite string_app_assoc.
Qed.

Create HintDb includes.
#[local] Hint Resolve includes_self includes_here includes_app_r : includes.

Lemma js_or_message (c : Ascii.ascii) (s t d : string) :
  js_or (String c s +:+ t) d = String c s +:+ t.
Proof. apply js_or_nonempty. discriminate. Qed.









(** * Further properties *)

(** ** The derived views *)

(** X1: for bounds in order, clamp(n, a, b) lies within them, and it is
    [a] below the range, [b] above it and [n] itself inside. *)
Theorem X1_clamp_within_bounds (n a b : Z) :
  a ≤ b →
  a ≤ clamp n a b ≤ b
  ∧ clamp n a b
    = (if decide (n < a) then a else if decide (b < n) then b else n).
Proof. intros Hab. unfold clamp. repeat case_decide; lia. Qed.

Lemma X1_clamp_witness :
  1 ≤ 200 ∧ 1 ≤ clamp 500 1 200 ≤ 200.
Proof. split; [lia|]. apply (X1_clamp_within_bounds 500 1 200). lia. Defined.

(** X2: sorting is idempotent and keeps the length: sorting the sorted
    list again returns it unchanged. *)
Theorem X2_sort_idempotent (l : list ScoredSentence) :
  Array_sort by_score_desc (Array_sort by_score_desc l)
  = Array_sort by_score_desc l
  ∧ length (Array_sort by_score_desc l) = length l.
Proof.
  split.
  - apply (stable_sort_desc_unique l); [|apply Array_sort_stable].
    split; [by rewrite !Array_sort_perm|].
    split; [apply Array_sort_sorted|].
    intros v. by rewrite !Array_sort_ties.
  - by rewrite Array_sort_perm.
Qed.

Lemma filter_none {A} (p : A → bool) (l : list A) :
  Forall (fun x => p x = false) l → List.filter p l = [].
Proof. induction 1 as [|x l Hx _ IH]; simpl; [done|]. by rewrite Hx. Qed.

Lemma filter_length_mono {A} (p q : A → bool) (l : list A) :
  (∀ x, p x = true → q x = true) →
  (length (List.filter p l) ≤ length (List.filter q l))%nat.
Proof.
  intros Hpq. induction l as [|x l IH]; simpl; [done|].
  destruct (p x) eqn:Hp.
  - rewrite (Hpq _ Hp). simpl. lia.
  - destruct (q x); simpl; lia.
Qed.

(** In a list sorted by descending score, the sentences at or above a
    threshold are the first ones. *)
Lemma filter_threshold_is_prefix (min : Z) (l : list ScoredSentence) :
  StronglySorted (fun x y => rank y ≤ rank x) l →
  List.filter (fun x => bool_decide (min ≤ rank x)) l
  = take (length (List.filter (fun x => bool_decide (min ≤ rank x)) l)) l.
Proof.
  induction 1 as [|x l _ IH Hx]; simpl; [done|].
  destruct (bool_decide (min ≤ rank x)) eqn:Hp; simpl.
  - by rewrite <- IH.
  - apply bool_decide_eq_false in Hp. rewrite filter_none; [done|].
    eapply Forall_impl; [exact Hx|]. simpl. intros y Hy.
    apply bool_decide_eq_false. lia.
Qed.

Lemma take_prefix_le {A} (l : list A) (a b : nat) :
  (a ≤ b)%nat → take a l `prefix_of` take b l.
Proof.
  intros Hab. replace (take a l) with (take a (take b l)).
  - apply prefix_take.
  - rewrite take_take. f_equal. lia.
Qed.

Lemma take_sorted {A} (R : A → A → Prop) (n : nat) (l : list A) :
  StronglySorted R l → StronglySorted R (take n l).
Proof.
  intros Hl. rewrite <- (take_drop n l) in Hl.
  by apply StronglySorted_app_1_l in Hl.
Qed.

Lemma filtered_eq analysis minRisk :
  filtered analysis minRisk
  = List.filter (fun x => bool_decide (clamp minRisk 0 999 ≤ rank x))
      (allSorted analysis).
Proof. unfold filtered. by rewrite js_or_minRisk. Qed.

Lemma topShown_eq analysis minRisk topN :
  topShown analysis minRisk topN
  = take (Z.to_nat (clamp (js_or topN 10) 1 200)) (filtered analysis minRisk).
Proof.
  unfold topShown. apply Array_slice_prefix. unfold clamp. lia.
Qed.

Lemma allSorted_sorted analysis :
  StronglySorted (fun x y => rank y ≤ rank x) (allSorted analysis).
Proof. rewrite allSorted_eq. apply Array_sort_sorted. Qed.

Lemma filtered_take analysis minRisk :
  filtered analysis minRisk
  = take (length (filtered analysis minRisk)) (allSorted analysis).
Proof.
  rewrite filtered_eq. apply filter_threshold_is_prefix, allSorted_sorted.
Qed.

Lemma filtered_sorted analysis minRisk :
  StronglySorted (fun x y => rank y ≤ rank x) (filtered analysis minRisk).
Proof. rewrite filtered_take. apply take_sorted, allSorted_sorted. Qed.

(** X3: every list the page shows is in descending order of score:
    [allSorted], [filtered] and [topShown]. *)
Theorem X3_views_are_sorted
    (analysis : option AnalysisResult) (minRisk topN : Z) :
  StronglySorted (fun x y => rank y ≤ rank x) (allSorted analysis)
  ∧ StronglySorted (fun x y => rank y ≤ rank x) (filtered analysis minRisk)
  ∧ StronglySorted (fun x y => rank y ≤ rank x)
      (topShown analysis minRisk topN).
Proof.
  split; [apply allSorted_sorted|]. split; [apply filtered_sorted|].
  rewrite topShown_eq. apply take_sorted, filtered_sorted.
Qed.

(** X4: nothing that is hidden outranks anything that is shown: a sentence
    of all_sentences that is not in the view is either below the minRisk
    threshold or scores no more than every sentence in the view. *)
Theorem X4_hidden_sentences_do_not_outrank_shown
    (analysis : option AnalysisResult) (minRisk topN : Z)
    (y : ScoredSentence) :
  y ∈ default [] (analysis ≫= all_sentences) →
  y ∉ topShown analysis minRisk topN →
  rank y < clamp minRisk 0 999
  ∨ ∀ x, x ∈ topShown analysis minRisk topN → rank y ≤ rank x.
Proof.
  intros Hy Hn. destruct (decide (clamp minRisk 0 999 ≤ rank y)) as [Hge|];
    [right|left; lia].
  assert (y ∈ filtered analysis minRisk) as Hf.
  { rewrite filtered_eq, list_elem_of_In, filter_In, <- list_elem_of_In.
    split; [|by apply bool_decide_eq_true].
    by rewrite allSorted_eq, Array_sort_perm. }
  pose proof (filtered_sorted analysis minRisk) as Hs.
  rewrite topShown_eq in *.
  set (n := Z.to_nat _) in *.
  rewrite <- (take_drop n (filtered analysis minRisk)) in Hf, Hs.
  apply elem_of_app in Hf as [Hf|Hf]; [done|].
  intros x Hx. by apply (StronglySorted_app_1_elem_of _ _ _ x y Hs).
Qed.

Lemma X4_hidden_witness :
  sentence_A ∈ default [] (Some analysis_ABC ≫= all_sentences)
  ∧ (sentence_A ∉ topShown (Some analysis_ABC) 1 1)
  ∧ (rank sentence_A < clamp 1 0 999
     ∨ ∀ x, x ∈ topShown (Some analysis_ABC) 1 1 → rank sentence_A ≤ rank x).
Proof.
  assert (sentence_A ∈ default [] (Some analysis_ABC ≫= all_sentences)) as Hin
    by (simpl; left).
  assert (sentence_A ∉ topShown (Some analysis_ABC) 1 1) as Hout.
  { change (sentence_A ∉ [sentence_B]).
    rewrite list_elem_of_singleton. discriminate. }
  split; [exact Hin|]. split; [exact Hout|].
  exact (X4_hidden_sentences_do_not_outrank_shown
           (Some analysis_ABC) 1 1 sentence_A Hin Hout).
Defined.

(** X5: the views are initial segments: [filtered] is a prefix of
    [allSorted] (the sentences at or above the threshold are exactly the
    first ones of the sorted list) and [topShown] is a prefix of
    [filtered]. *)
Theorem X5_views_are_prefixes
    (analysis : option AnalysisResult) (minRisk topN : Z) :
  filtered analysis minRisk `prefix_of` allSorted analysis
  ∧ topShown analysis minRisk topN `prefix_of` filtered analysis minRisk
  ∧ topShown analysis minRisk topN `prefix_of` allSorted analysis.
Proof.
  assert (filtered analysis minRisk `prefix_of` allSorted analysis) as Hf
    by (rewrite filtered_take; apply prefix_take).
  assert (topShown analysis minRisk topN `prefix_of` filtered analysis minRisk)
    as Ht by (rewrite topShown_eq; apply prefix_take).
  split; [done|]. split; [done|]. by etrans.
Qed.

(** X6: raising minRisk only cuts the lists shorter: for minRisk <=
    minRisk', the filtered list and the view of minRisk' are prefixes of
    those of minRisk. *)
Theorem X6_raising_minRisk_shortens
    (analysis : option AnalysisResult) (minRisk minRisk' topN : Z) :
  minRisk ≤ minRisk' →
  filtered analysis minRisk' `prefix_of` filtered analysis minRisk
  ∧ topShown analysis minRisk' topN `prefix_of` topShown analysis minRisk topN.
Proof.
  intros Hle.
  assert (length (filtered analysis minRisk')
          ≤ length (filtered analysis minRisk))%nat as Hlen.
  { rewrite !filtered_eq. apply filter_length_mono. intros x Hx.
    apply bool_decide_eq_true in Hx. apply bool_decide_eq_true.
    unfold clamp in *. lia. }
  rewrite !topShown_eq.
  rewrite (filtered_take analysis minRisk), (filtered_take analysis minRisk').
  split; [by apply take_prefix_le|].
  rewrite !take_take. apply take_prefix_le. lia.
Qed.

Lemma X6_raising_minRisk_witness :
  4 ≤ 6
  ∧ filtered (Some analysis_ABC) 6 `prefix_of` filtered (Some analysis_ABC) 4.
Proof.
  split; [lia|].
  apply (X6_raising_minRisk_shortens (Some analysis_ABC) 4 6 10). lia.
Defined.

(** X7: raising topN only appends: for 1 <= topN <= topN', the view of
    topN is a prefix of the view of topN'. *)
Theorem X7_raising_topN_extends
    (analysis : option AnalysisResult) (minRisk topN topN' : Z) :
  1 ≤ topN → topN ≤ topN' →
  topShown analysis minRisk topN `prefix_of` topShown analysis minRisk topN'.
Proof.
  intros H1 Hle. rewrite !topShown_eq, !js_or_topN.
  apply take_prefix_le. unfold clamp. repeat case_decide; lia.
Qed.

Lemma X7_raising_topN_witness :
  1 ≤ 1 ∧ 1 ≤ 2
  ∧ topShown (Some analysis_ABC) 1 1 `prefix_of` topShown (Some analysis_ABC) 1 2.
Proof.
  split; [lia|]. split; [lia|].
  apply (X7_raising_topN_extends (Some analysis_ABC) 1 1 2); lia.
Defined.

(** X8: minRisk is clamped to [0, 999] before it is compared: any minRisk
    gives the list of its clamped value, so a negative one filters like 0
    and one above 999 like 999. *)
Theorem X8_minRisk_is_clamped (analysis : option AnalysisResult) (minRisk : Z) :
  filtered analysis minRisk = filtered analysis (clamp minRisk 0 999)
  ∧ filtered analysis (Z.min minRisk 0) = filtered analysis 0
  ∧ filtered analysis (Z.max minRisk 999) = filtered analysis 999.
Proof.
  rewrite !filtered_eq.
  replace (clamp (clamp minRisk 0 999) 0 999) with (clamp minRisk 0 999)
    by (unfold clamp; lia).
  replace (clamp (Z.min minRisk 0) 0 999) with (clamp 0 0 999)
    by (unfold clamp; lia).
  replace (clamp (Z.max minRisk 999) 0 999) with (clamp 999 0 999)
    by (unfold clamp; lia).
  done.
Qed.

Lemma to_integer_Qfloor (n : Q) :
  (1 <= n)%Q → to_integer n = Qfloor n ∧ 1 ≤ Qfloor n.
Proof.
  intros Hn. unfold to_integer.
  assert (Qle_bool 0 n = true) as ->.
  { apply Qle_bool_iff. by apply Qle_trans with 1%Q. }
  split; [done|]. by apply (Qfloor_resp_le 1 n).
Qed.

Lemma clamp_num_bounds (q : Q) :
  let n := Qmax 1 (Qmin 200 q) in
  (1 <= n <= 200)%Q
  ∧ (((q <= 1)%Q ∧ n == 1) ∨ ((1 <= q <= 200)%Q ∧ n == q)
     ∨ ((200 <= q)%Q ∧ n == 200)).
Proof.
  intros n. subst n. split.
  - split; [apply Q.le_max_l|].
    apply Q.max_lub; [done|apply Q.le_min_l].
  - destruct (Q.min_spec 200 q) as [[H1 E1]|[H1 E1]];
      destruct (Q.max_spec 1 (Qmin 200 q)) as [[H2 E2]|[H2 E2]];
      rewrite E1 in H2; rewrite E2, ?E1.
    + right; right. split; [by apply Qlt_le_weak|done].
    + by apply Qle_not_lt in H2.
    + right; left. split; [|done]. split; [by apply Qlt_le_weak|done].
    + left. done.
Qed.

Lemma clamp_num_whole (k : Z) :
  to_integer (Qmax 1 (Qmin 200 (inject_Z k))) = clamp k 1 200.
Proof.
  destruct (clamp_num_bounds (inject_Z k)) as [[Hlo _] Hn].
  destruct (to_integer_Qfloor _ Hlo) as [-> _]. unfold clamp.
  destruct Hn as [[H E]|[[[H H'] E]|[H E]]]; rewrite (Qfloor_comp _ _ E).
  - unfold Qle in H. cbn [Qnum Qden inject_Z] in H.
    change (Qfloor 1) with 1. lia.
  - unfold Qle in H, H'. cbn [Qnum Qden inject_Z] in H, H'.
    rewrite Qfloor_Z. lia.
  - unfold Qle in H. cbn [Qnum Qden inject_Z] in H.
    change (Qfloor 200) with 200. lia.
Qed.

(** X9: for every number the topN field can hold, the number of sentences
    shown is the smaller of the whole part of the effective topN and the
    number of sentences that pass the filter.  The effective topN is 10
    for 0 and NaN, and otherwise topN brought into [1, 200]: a fraction
    stays a fraction there, and [slice] drops it.  On whole numbers the
    view is [topShown]. *)
Theorem X9_shown_count (analysis : option AnalysisResult) (minRisk : Z) :
  (∀ topN : Num, ∃ n : Q,
      clamp_num (or_num topN (Finite 10)) (Finite 1) (Finite 200) = Finite n
      ∧ (1 <= n <= 200)%Q
      ∧ match topN with
        | NaN => n == 10
        | Infinity negative => n == if negative then 1 else 200
        | Finite q =>
            if Qeq_bool q 0 then n == 10
            else ((q <= 1)%Q ∧ n == 1) ∨ ((1 <= q <= 200)%Q ∧ n == q)
                 ∨ ((200 <= q)%Q ∧ n == 200)
        end
      ∧ Z.of_nat (length (topShown_num analysis minRisk topN))
        = Z.min (Qfloor n) (Z.of_nat (length (filtered analysis minRisk))))
  ∧ (∀ k : Z, topShown_num analysis minRisk (Finite (inject_Z k))
              = topShown analysis minRisk k).
Proof.
  assert (∀ q : Q,
            Z.of_nat (length (slice_to (Finite (Qmax 1 (Qmin 200 q)))
                                (filtered analysis minRisk)))
            = Z.min (Qfloor (Qmax 1 (Qmin 200 q)))
                    (Z.of_nat (length (filtered analysis minRisk)))) as Hlen.
  { intros q. destruct (clamp_num_bounds q) as [[Hlo _] _].
    destruct (to_integer_Qfloor _ Hlo) as [Hi Hpos].
    unfold slice_to. rewrite Hi, Array_slice_prefix, length_take by lia.
    lia. }
  split.
  - intros [|[|]|q].
    + exists (Qmax 1 (Qmin 200 10)). split; [done|].
      split; [apply clamp_num_bounds|]. split; [done|apply Hlen].
    + exists 1%Q. split; [done|]. split; [done|]. split; [done|].
      apply (Hlen 1%Q).
    + exists 200%Q. split; [done|]. split; [done|]. split; [done|].
      apply (Hlen 200%Q).
    + unfold topShown_num, or_num, truthy_num.
      destruct (Qeq_bool q 0) eqn:Hq; cbn [negb].
      * exists (Qmax 1 (Qmin 200 10)). split; [done|].
        split; [apply clamp_num_bounds|]. split; [done|apply Hlen].
      * exists (Qmax 1 (Qmin 200 q)). split; [done|].
        split; [apply clamp_num_bounds|].
        split; [apply clamp_num_bounds|apply Hlen].
  - intros k. unfold topShown_num, topShown, or_num, truthy_num.
    rewrite js_or_topN.
    assert (Qeq_bool (inject_Z k) 0 = bool_decide (k = 0)) as ->.
    { unfold Qeq_bool, inject_Z. cbn. case_bool_decide as Hk.
      - subst k. done.
      - apply Z.eqb_neq. lia. }
    case_bool_decide as Hk; case_decide; try done; cbn [negb].
    unfold clamp_num, Math_max, Math_min, slice_to.
    by rewrite clamp_num_whole.
Qed.

(** X10: when the backend supplies a non-empty top_risk_sentences, the
    hotspot list is that list as it is, in the backend's order and whatever
    the filters are. *)
Theorem X10_hotspots_from_backend
    (a : AnalysisResult) (minRisk topN : Z)
    (x : ScoredSentence) (rest : list ScoredSentence) :
  top_risk_sentences a = Some (x :: rest) →
  judgeFriendly (Some a) minRisk topN = x :: rest.
Proof. intros H. unfold judgeFriendly. simpl. by rewrite H. Qed.

Lemma X10_hotspots_from_backend_witness :
  top_risk_sentences analysis_shortlist = Some [sentence_C; sentence_B]
  ∧ judgeFriendly (Some analysis_shortlist) 100 1 = [sentence_C; sentence_B].
Proof.
  split; [reflexivity|].
  apply (X10_hotspots_from_backend analysis_shortlist 100 1). reflexivity.
Defined.

(** X11: when top_risk_sentences is absent or empty, the hotspot list is
    the first five sentences of the view: a prefix of [topShown] with
    min(5, number shown) elements, in descending order of score. *)
Theorem X11_hotspots_fallback
    (analysis : option AnalysisResult) (minRisk topN : Z) :
  analysis ≫= top_risk_sentences = None
  ∨ analysis ≫= top_risk_sentences = Some [] →
  judgeFriendly analysis minRisk topN = take 5 (topShown analysis minRisk topN)
  ∧ judgeFriendly analysis minRisk topN `prefix_of` topShown analysis minRisk topN
  ∧ length (judgeFriendly analysis minRisk topN)
    = Nat.min 5 (length (topShown analysis minRisk topN))
  ∧ StronglySorted (fun x y => rank y ≤ rank x)
      (judgeFriendly analysis minRisk topN).
Proof.
  intros H.
  assert (judgeFriendly analysis minRisk topN
          = take 5 (topShown analysis minRisk topN)) as ->.
  { unfold judgeFriendly. destruct H as [-> | ->];
      by rewrite Array_slice_prefix. }
  split; [done|]. split; [apply prefix_take|]. split; [apply length_take|].
  apply take_sorted. rewrite topShown_eq. apply take_sorted, filtered_sorted.
Qed.

Lemma X11_hotspots_fallback_witness :
  (Some analysis_ABC ≫= top_risk_sentences = None
   ∨ Some analysis_ABC ≫= top_risk_sentences = Some [])
  ∧ judgeFriendly (Some analysis_ABC) 1 10
    = take 5 (topShown (Some analysis_ABC) 1 10).
Proof.
  split; [by left|].
  apply (X11_hotspots_fallback (Some analysis_ABC) 1 10). by left.
Defined.

(** ** The session *)

(** X12: a submit with a file selected sends exactly one request, the file
    posted to `${apiBase}/analyze` with the API base of the render; it sets
    the loading flag, shows the status as analyzing and clears the error
    banner, and leaves the previous analysis, the rewrite cache and the
    filters in place while the call is in flight. *)
Theorem X12_submit_sends_one_request
    (rendered : AppState) (w : World) (f : File) :
  file rendered = Some f →
  let p := analyzePdf rendered w in
  outcome p = inr tt
  ∧ sent (state_after p) = (sent w ++ [PostAnalyze (apiBase rendered) f])%list
  ∧ pending (state_after p)
    = (pending w ++ [PostAnalyze (apiBase rendered) f])%list
  ∧ url (PostAnalyze (apiBase rendered) f) = apiBase rendered +:+ "/analyze"
  ∧ loading (app (state_after p)) = true
  ∧ statusPill (app (state_after p)) = "Analyzing…"
  ∧ error (app (state_after p)) = ""
  ∧ analysis (app (state_after p)) = analysis (app w)
  ∧ rewriteBySentence (app (state_after p)) = rewriteBySentence (app w)
  ∧ (minRisk (app (state_after p)), topN (app (state_after p)))
    = (minRisk (app w), topN (app w)).
Proof. intros Hf. js_unfold. rewrite Hf. cbn. done. Qed.

Lemma X12_submit_witness :
  file (app world_done) = Some file_report
  ∧ pending (state_after (analyzePdf (app world_done) world_done))
    = [PostAnalyze DEFAULT_API_BASE file_report].
Proof.
  split; [reflexivity|].
  apply (X12_submit_sends_one_request (app world_done) world_done file_report).
  reflexivity.
Defined.

(** What any settlement of [/analyze] does to the session. *)
Lemma analyzePdf_settled_total (r : Settled AnalysisResult) (w : World) :
  outcome (analyzePdf_settled r w) = inr tt
  ∧ loading (app (run (analyzePdf_settled r) w)) = false
  ∧ statusPill (app (run (analyzePdf_settled r) w))
    = (if completed_ok r then "Done" else "Error")
  ∧ (pending (run (analyzePdf_settled r) w), sent (run (analyzePdf_settled r) w))
    = (pending w, sent w)
  ∧ file (app (run (analyzePdf_settled r) w)) = file (app w)
  ∧ fileName (app (run (analyzePdf_settled r) w)) = fileName (app w)
  ∧ if completed_ok r
    then rewriteBySentence (app (run (analyzePdf_settled r) w)) = ∅
         ∧ minRisk (app (run (analyzePdf_settled r) w)) = 1
         ∧ topN (app (run (analyzePdf_settled r) w)) = 10
         ∧ error (app (run (analyzePdf_settled r) w)) = error (app w)
         ∧ match r with
           | Resolved res =>
               Response.json res
               = inr (analysis (app (run (analyzePdf_settled r) w)))
           | Rejected _ => False
           end
    else error (app (run (analyzePdf_settled r) w)) ≠ ""
         ∧ analysis (app (run (analyzePdf_settled r) w)) = analysis (app w)
         ∧ rewriteBySentence (app (run (analyzePdf_settled r) w))
           = rewriteBySentence (app w)
         ∧ minRisk (app (run (analyzePdf_settled r) w)) = minRisk (app w)
         ∧ topN (app (run (analyzePdf_settled r) w)) = topN (app w).
Proof.
  unfold run. remember (analyzePdf_settled r w) as p eqn:Hp.
  destruct r as [e|res]; cbn [completed_ok].
  - js_unfold_in Hp. cbn in Hp. subst p. cbn.
    repeat split. by apply or_else_nonempty.
  - destruct (Response.ok res) eqn:Hok; cbn [andb].
    + destruct (Response.json res) as [e|data] eqn:Hjson.
      * js_unfold_in Hp. rewrite Hok, Hjson in Hp. cbn in Hp. subst p. cbn.
        repeat split. by apply or_else_nonempty.
      * js_unfold_in Hp. rewrite Hok, Hjson in Hp. cbn in Hp. subst p. cbn.
        done.
    + js_unfold_in Hp. rewrite Hok in Hp. cbn in Hp.
      destruct (Response.text res) as [e|body]; cbn in Hp;
        rewrite js_or_message in Hp; subst p; cbn;
        repeat split; discriminate.
Qed.

(** X13: however the [/analyze] call settles, the handler does not throw,
    the loading flag is cleared, and the status is Done exactly when a 2xx
    response with a readable body came back and Error otherwise; in the
    Error case (which includes a 2xx response whose JSON cannot be read) the
    error banner is non-empty and the analysis, the rewrite cache and the
    filters are as before. *)
Theorem X13_every_settlement_ends_in_Done_or_Error
    (r : Settled AnalysisResult) (w : World) :
  let p := analyzePdf_settled r w in
  outcome p = inr tt
  ∧ loading (app (state_after p)) = false
  ∧ statusPill (app (state_after p))
    = (if completed_ok r then "Done" else "Error")
  ∧ if completed_ok r
    then rewriteBySentence (app (state_after p)) = ∅
         ∧ minRisk (app (state_after p)) = 1
         ∧ topN (app (state_after p)) = 10
    else error (app (state_after p)) ≠ ""
         ∧ analysis (app (state_after p)) = analysis (app w)
         ∧ rewriteBySentence (app (state_after p)) = rewriteBySentence (app w)
         ∧ minRisk (app (state_after p)) = minRisk (app w)
         ∧ topN (app (state_after p)) = topN (app w).
Proof.
  intros p. subst p.
  destruct (analyzePdf_settled_total r w)
    as (Ho & Hl & Hs & _ & _ & _ & Hrest).
  unfold run in *. split; [done|]. split; [done|]. split; [done|].
  destruct (completed_ok r); tauto.
Qed.

(** What picking a file sets, and what it leaves. *)
Lemma onPickFile_fields (f : option File) (w : World) :
  outcome (onPickFile f w) = inr tt
  ∧ file (app (run (onPickFile f) w)) = f
  ∧ fileName (app (run (onPickFile f) w))
    = match f with Some f => name f | None => "" end
  ∧ analysis (app (run (onPickFile f) w)) = None
  ∧ error (app (run (onPickFile f) w)) = ""
  ∧ statusPill (app (run (onPickFile f) w)) = "Ready"
  ∧ rewriteBySentence (app (run (onPickFile f) w)) = ∅
  ∧ loading (app (run (onPickFile f) w)) = loading (app w)
  ∧ minRisk (app (run (onPickFile f) w)) = minRisk (app w)
  ∧ topN (app (run (onPickFile f) w)) = topN (app w)
  ∧ apiBase (app (run (onPickFile f) w)) = apiBase (app w)
  ∧ pending (run (onPickFile f) w) = pending w
  ∧ sent (run (onPickFile f) w) = sent w.
Proof.
  unfold run. remember (onPickFile f w) as p eqn:Hp.
  js_unfold_in Hp. cbn in Hp. subst p. cbn. done.
Qed.

Lemma views_without_analysis (minRisk topN : Z) :
  topShown None minRisk topN = [] ∧ judgeFriendly None minRisk topN = [].
Proof.
  assert (topShown None minRisk topN = []) as H
    by (rewrite topShown_eq; apply take_nil).
  split; [done|]. unfold judgeFriendly. simpl. rewrite H. done.
Qed.

(** X14: picking a file is a hard reset of the session: the analysis and
    every rewrite are dropped, the error is cleared and the status is Ready,
    so the views are empty and every card is Idle.  It does not touch the
    filters or the loading flag, and it does not withdraw the calls in
    flight. *)
Theorem X14_picking_a_file_resets_the_session (f : option File) (w : World) :
  let w' := run (onPickFile f) w in
  file (app w') = f
  ∧ analysis (app w') = None
  ∧ error (app w') = ""
  ∧ statusPill (app w') = "Ready"
  ∧ topShown (analysis (app w')) (minRisk (app w')) (topN (app w')) = []
  ∧ judgeFriendly (analysis (app w')) (minRisk (app w')) (topN (app w')) = []
  ∧ (∀ sentence, getEntry (rewriteBySentence (app w')) sentence = Idle)
  ∧ (minRisk (app w'), topN (app w')) = (minRisk (app w), topN (app w))
  ∧ loading (app w') = loading (app w)
  ∧ (pending w', sent w') = (pending w, sent w).
Proof.
  intros w'. subst w'.
  destruct (onPickFile_fields f w)
    as (_ & Hf & _ & Ha & He & Hs & Hc & Hl & Hm & Ht & _ & Hp & Hse).
  rewrite Hf, Ha, He, Hs, Hc, Hl, Hm, Ht, Hp, Hse.
  repeat split; apply views_without_analysis.
Qed.

(** X15: a response is not matched against the file it was requested for:
    if a file is picked while an [/analyze] call is in flight and the call
    then succeeds, its result is stored as the analysis of the session,
    next to the newly picked file. *)
Theorem X15_late_analysis_is_applied_to_the_new_file
    (w : World) (f : option File) (res : Response.t AnalysisResult)
    (data : option AnalysisResult) :
  Response.ok res = true →
  Response.json res = inr data →
  let w' := run (analyzePdf_settled (Resolved res)) (run (onPickFile f) w) in
  file (app w') = f
  ∧ fileName (app w') = match f with Some f => name f | None => "" end
  ∧ analysis (app w') = data
  ∧ statusPill (app w') = "Done".
Proof.
  intros Hok Hjson w'. subst w'.
  destruct (analyzePdf_settled_total (Resolved res) (run (onPickFile f) w))
    as (_ & _ & Hs & _ & Hfile & Hname & Hrest).
  destruct (onPickFile_fields f w) as (_ & Hf & Hn & _).
  cbn [completed_ok] in Hs, Hrest. rewrite Hok, Hjson in Hs, Hrest.
  cbn [andb] in Hs, Hrest. destruct Hrest as (_ & _ & _ & _ & Hd).
  rewrite Hfile, Hname, Hf, Hn, Hs.
  split; [done|]. split; [done|]. split; [congruence|done].
Qed.

Lemma X15_late_analysis_witness :
  Response.ok response_ABC = true
  ∧ Response.json response_ABC = inr (Some analysis_ABC)
  ∧ analysis
      (app (run (analyzePdf_settled (Resolved response_ABC))
                (run (onPickFile None) world_done)))
    = Some analysis_ABC.
Proof.
  split; [reflexivity|]. split; [reflexivity|].
  apply (X15_late_analysis_is_applied_to_the_new_file
           world_done None response_ABC (Some analysis_ABC)); reflexivity.
Defined.

(** X16: a reset does not withdraw the rewrites in flight: when a
    [/rewrite] call settles after a file was picked, its entry is written
    into the emptied cache, which then holds that one entry, an Error or a
    Success. *)
Theorem X16_late_rewrite_enters_the_new_session
    (w : World) (f : option File) (key : string) (r : Settled RewriteBody.t) :
  ∃ e,
    rewriteBySentence
      (app (run (rewriteSentence_settled key r) (run (onPickFile f) w)))
    = {[ key := e ]}
    ∧ (Error_shape e ∨ Success_shape e)
    ∧ getEntry
        (rewriteBySentence
           (app (run (rewriteSentence_settled key r) (run (onPickFile f) w))))
        key ≠ Idle.
Proof.
  destruct (rewriteSentence_settled_writes key r) as (e & Hshape & Hrun).
  destruct (onPickFile_fields f w) as (_ & _ & _ & _ & _ & _ & Hc & _).
  exists e.
  assert (rewriteBySentence
            (app (run (rewriteSentence_settled key r) (run (onPickFile f) w)))
          = {[ key := e ]}) as ->.
  { unfold run at 1, state_after. rewrite Hrun. cbn [snd].
    unfold run at 1, state_after, setRewriteBySentence, on_app, modify.
    cbn [snd app rewriteBySentence]. by rewrite Hc, insert_empty. }
  split; [done|]. split; [done|].
  unfold getEntry, SentenceCard. rewrite lookup_singleton_eq. cbn.
  destruct Hshape as [(Hl & He & Ho)|(Hl & He & Ho)]; rewrite Hl, ?He, ?Ho.
  - rewrite (js_or_nonempty _ _ He).
    apply truthy_string_nonempty in He. by rewrite He.
  - rewrite js_or_empty, (js_or_nonempty _ _ Ho), truthy_empty.
    apply truthy_string_nonempty in Ho. by rewrite Ho.
Qed.

(** ** Rewrites *)

Lemma js_or_empty_default (s : string) : js_or s "" = s.
Proof. by destruct s. Qed.

Lemma getEntry_shapes (cache : gmap string RewriteState.t) (s : string) :
  cache_wf cache →
  match cache !! s with
  | None => getEntry cache s = Idle
  | Some e =>
      (Loading_kept_shape e ∧ getEntry cache s = Loading)
      ∨ (Error_shape e ∧ getEntry cache s = Error (RewriteState.error e))
      ∨ (Success_shape e ∧ getEntry cache s = Success (RewriteState.output e))
  end.
Proof.
  intros Hwf. unfold getEntry, SentenceCard.
  destruct (cache !! s) as [e|] eqn:E; [|done].
  destruct (Hwf _ _ E) as [H|[H|H]].
  - left. split; [done|]. destruct H as (Hl & He). cbn. by rewrite Hl.
  - right; left. split; [done|]. destruct H as (Hl & He & Ho).
    cbn. rewrite Hl. cbn.
    rewrite (js_or_nonempty _ _ He).
    apply truthy_string_nonempty in He. by rewrite He.
  - right; right. split; [done|]. destruct H as (Hl & He & Ho).
    cbn. rewrite Hl, He. cbn.
    rewrite js_or_empty, truthy_empty, (js_or_nonempty _ _ Ho).
    apply truthy_string_nonempty in Ho. by rewrite Ho.
Qed.

(** X17: in a reachable state, whatever render the earlier handlers were
    of, a click handled by the current render sends a rewrite request
    exactly when the entry of the sentence holds no rewrite.  On a Success
    entry, and on a Loading entry that kept the output of an earlier
    rewrite, the call changes nothing.  On every other entry (never
    requested, failed before, or loading with no output) it sends one
    request for that sentence and mode to the API base, and the entry
    becomes Loading with the error cleared and no output, while every other
    entry and the session are left alone. *)
Theorem X17_request_is_sent_unless_cached
    (base : string) (w : World) (sentence mode : string) :
  reachable base w →
  let w' := run (rewriteSentence (app w) sentence mode) w in
  let kept := out (SentenceCard (rewriteBySentence (app w) !! sentence)) in
  let requested :=
    match getEntry (rewriteBySentence (app w)) sentence with
    | Success _ => false
    | Loading => bool_decide (kept = "")
    | Idle | Error _ => true
    end in
  if requested
  then
    sent w' = (sent w ++ [PostRewrite (apiBase (app w)) sentence mode])%list
    ∧ pending w'
      = (pending w ++ [PostRewrite (apiBase (app w)) sentence mode])%list
    ∧ rewriteBySentence (app w')
      = <[sentence := {| RewriteState.loading := true;
                         RewriteState.error := "";
                         RewriteState.output := "" |}]>
          (rewriteBySentence (app w))
    ∧ getEntry (rewriteBySentence (app w')) sentence = Loading
    ∧ analysis (app w') = analysis (app w)
    ∧ error (app w') = error (app w)
    ∧ statusPill (app w') = statusPill (app w)
  else w' = w.
Proof.
  intros Hr w' kept requested. subst w' kept requested.
  assert (cache_wf (rewriteBySentence (app w))) as Hwf
    by by eapply reachable_cache_wf.
  pose proof (getEntry_shapes _ sentence Hwf) as Hg.
  unfold run. remember (rewriteSentence (app w) sentence mode w) as p eqn:Hp.
  unfold rewriteSentence in Hp.
  assert (∀ c : gmap string RewriteState.t,
            getEntry (<[sentence := {| RewriteState.loading := true;
                                       RewriteState.error := "";
                                       RewriteState.output := "" |}]> c)
              sentence = Loading) as HL.
  { intros c. unfold getEntry, SentenceCard. by rewrite lookup_insert_eq. }
  destruct (rewriteBySentence (app w) !! sentence) as [e|] eqn:E.
  - cbn in Hp. cbn [SentenceCard out fmap option_fmap option_map or_else].
    destruct Hg as [(H & ->)|[(H & ->)|(H & ->)]].
    + destruct H as (Hl & He). rewrite js_or_empty_default.
      case_bool_decide as Ho.
      * rewrite He, Ho, truthy_empty in Hp. js_unfold_in Hp. cbn in Hp.
        rewrite E in Hp. cbn in Hp. rewrite Ho in Hp. subst p. cbn.
        rewrite js_or_empty. repeat split. apply HL.
      * rewrite He, truthy_empty in Hp.
        apply truthy_string_nonempty in Ho. rewrite Ho in Hp. cbn in Hp.
        subst p. by destruct w.
    + destruct H as (Hl & He & Ho).
      rewrite Ho, truthy_empty in Hp. js_unfold_in Hp. cbn in Hp.
      rewrite E in Hp. cbn in Hp. rewrite Ho in Hp. subst p. cbn.
      rewrite js_or_empty. repeat split. apply HL.
    + destruct H as (Hl & He & Ho).
      rewrite He, truthy_empty in Hp.
      apply truthy_string_nonempty in Ho. rewrite Ho in Hp. cbn in Hp.
      subst p. by destruct w.
  - rewrite Hg. cbn in Hp. js_unfold_in Hp. cbn in Hp.
    rewrite E in Hp. cbn in Hp. subst p. cbn. repeat split. apply HL.
Qed.

Lemma reachable_B_failed : reachable DEFAULT_API_BASE world_B_failed.
Proof.
  apply (steps_reachable DEFAULT_API_BASE run_B_failed).
  vm_compute. reflexivity.
Qed.

Lemma X17_request_witness :
  reachable DEFAULT_API_BASE world_B_failed
  ∧ sent (run (rewriteSentence (app world_B_failed) "B" "plain_english")
              world_B_failed)
    = (sent world_B_failed
       ++ [PostRewrite (apiBase (app world_B_failed)) "B" "plain_english"])%list.
Proof.
  split; [exact reachable_B_failed|].
  exact (proj1 (X17_request_is_sent_unless_cached DEFAULT_API_BASE
                  world_B_failed "B" "plain_english" reachable_B_failed)).
Defined.

(** X18: a [/rewrite] call that fails stores an Error entry for its
    sentence, not loading and with no output; its message includes the HTTP
    status and the response body when there was a non-2xx response, and is
    the message of the thrown error, or "Rewrite failed." when it has none,
    when the call could not complete. *)
Theorem X18_failed_rewrite_stores_its_message
    (w : World) (key : string) (r : Settled RewriteBody.t) :
  failed r = true →
  ∃ shown,
    rewriteBySentence (app (run (rewriteSentence_settled key r) w)) !! key
    = Some {| RewriteState.loading := false; RewriteState.error := shown;
              RewriteState.output := "" |}
    ∧ shown ≠ ""
    ∧ match r with
      | Resolved res =>
          includes (pretty (Response.status res)) shown
          ∧ includes (body_text res) shown
      | Rejected e => shown = or_else (message e) "Rewrite failed."
      end.
Proof.
  intros Hf. unfold run.
  remember (rewriteSentence_settled key r w) as p eqn:Hp.
  destruct r as [e|res].
  - js_unfold_in Hp. cbn in Hp. subst p. cbn. eexists.
    split; [apply lookup_insert_eq|]. split; [by apply or_else_nonempty|done].
  - simpl in Hf. apply negb_true_iff in Hf. unfold body_text.
    js_unfold_in Hp. rewrite Hf in Hp. cbn in Hp.
    destruct (Response.text res) as [e|body]; cbn in Hp;
      rewrite js_or_message in Hp; subst p; cbn; eexists;
      (split; [apply lookup_insert_eq|]); (split; [discriminate|]);
      split; eauto 6 with includes.
Qed.

Lemma X18_failed_rewrite_witness :
  failed (Rejected (D := RewriteBody.t) failed_to_fetch) = true
  ∧ ∃ shown,
      rewriteBySentence
        (app (run (rewriteSentence_settled "B" (Rejected failed_to_fetch))
                  world_B_loading)) !! "B"
      = Some {| RewriteState.loading := false; RewriteState.error := shown;
                RewriteState.output := "" |}
      ∧ shown ≠ ""
      ∧ shown = or_else (message failed_to_fetch) "Rewrite failed.".
Proof.
  split; [reflexivity|].
  apply (X18_failed_rewrite_stores_its_message world_B_loading "B"
           (Rejected failed_to_fetch)).
  reflexivity.
Defined.

(** X19: in a reachable state, whatever render the handlers that ran were
    of, a card never shows an error and a rewrite together.  While its
    button is disabled it reads "Rewriting…" and the card shows no error;
    it may still show the rewrite that was stored for the sentence, and it
    shows none when every handler that ran was of the latest render.
    Otherwise the button reads "Rewrite (plain English)". *)
Theorem X19_card_shows_error_or_rewrite_never_both
    (base : string) (w : World) (sentence : string) :
  reachable base w →
  let card := SentenceCard (rewriteBySentence (app w) !! sentence) in
  ¬ (err card ≠ "" ∧ out card ≠ "")
  ∧ (if disabled card
     then label card = "Rewriting…" ∧ err card = ""
     else label card = "Rewrite (plain English)")
  ∧ (reachable_latest base w → disabled card = true → out card = "").
Proof.
  intros Hr card. subst card.
  assert (cache_wf (rewriteBySentence (app w))) as Hwf
    by by eapply reachable_cache_wf.
  unfold SentenceCard.
  destruct (rewriteBySentence (app w) !! sentence) as [e|] eqn:E; cbn.
  - split; [|split].
    + destruct (Hwf _ _ E) as [(Hl & He)|[(Hl & He & Ho)|(Hl & He & Ho)]];
        rewrite ?He, ?Ho, ?js_or_empty; intros [? ?]; done.
    + destruct (Hwf _ _ E) as [(Hl & He)|[(Hl & He & Ho)|(Hl & He & Ho)]];
        rewrite Hl, ?He; cbn; rewrite ?js_or_empty; done.
    + intros Hl Hd. apply reachable_latest_cache_strict in Hl.
      destruct (Hl _ _ E) as [(_ & _ & Ho)|[(_ & _ & Ho)|(Hf & _)]].
      * by rewrite Ho.
      * by rewrite Ho.
      * rewrite Hf in Hd. done.
  - split; [|done]. intros [? ?]; done.
Qed.

Lemma X19_card_witness :
  (reachable DEFAULT_API_BASE world_late_click
   ∧ ¬ (err (SentenceCard (rewriteBySentence (app world_late_click) !! "B"))
        ≠ ""
        ∧ out (SentenceCard (rewriteBySentence (app world_late_click) !! "B"))
          ≠ ""))
  ∧ (reachable DEFAULT_API_BASE world_B_loading
     ∧ reachable_latest DEFAULT_API_BASE world_B_loading
     ∧ disabled (SentenceCard (rewriteBySentence (app world_B_loading) !! "B"))
       = true
     ∧ out (SentenceCard (rewriteBySentence (app world_B_loading) !! "B"))
       = "").
Proof.
  split.
  - split; [exact reachable_late_click|].
    exact (proj1 (X19_card_shows_error_or_rewrite_never_both DEFAULT_API_BASE
                    world_late_click "B" reachable_late_click)).
  - split; [exact reachable_B_loading|].
    split; [exact reachable_latest_B_loading|].
    split; [reflexivity|].
    exact (proj2 (proj2 (X19_card_shows_error_or_rewrite_never_both
                           DEFAULT_API_BASE world_B_loading "B"
                           reachable_B_loading))
             reachable_latest_B_loading eq_refl).
Defined.

(** ** Runs through the page *)

Lemma filter_delete_length {A} (p : A → bool) (l : list A) (i : nat) (x : A) :
  l !! i = Some x →
  length (List.filter p l)
  = (length (List.filter p (delete i l)) + (if p x then 1 else 0))%nat.
Proof.
  revert i. induction l as [|a l IH]; intros [|i] H; simplify_eq/=.
  - destruct (p x); simpl; lia.
  - specialize (IH i H). destruct (p a); simpl; lia.
Qed.

Lemma analyses_in_flight_fetch (w : World) (r : Request) (a : AppState) :
  analyses_in_flight
    {| app := a; pending := pending w ++ [r]; sent := sent w ++ [r] |}
  = (analyses_in_flight w + (if is_analyze r then 1 else 0))%nat.
Proof.
  unfold analyses_in_flight. cbn [pending].
  rewrite List.filter_app, length_app. simpl. by destruct (is_analyze r).
Qed.

(** A rewrite request leaves the loading flag and the [/analyze] calls. *)
Lemma rewriteSentence_keeps_analyses (rendered : AppState) (w : World) s m :
  loading (app (run (rewriteSentence rendered s m) w)) = loading (app w)
  ∧ analyses_in_flight (run (rewriteSentence rendered s m) w)
    = analyses_in_flight w.
Proof.
  unfold run. remember (rewriteSentence rendered s m w) as p eqn:Hp.
  unfold rewriteSentence in Hp.
  destruct (truthy (RewriteState.output <$> rewriteBySentence rendered !! s)
            && negb (truthy (RewriteState.error
                               <$> rewriteBySentence rendered !! s))).
  - by subst p.
  - js_unfold_in Hp. cbn in Hp. subst p. cbn [state_after snd].
    rewrite analyses_in_flight_fetch. cbn. split; [done|lia].
Qed.

Lemma rewriteSentence_settled_keeps_analyses key r (w : World) :
  loading (app (run (rewriteSentence_settled key r) w)) = loading (app w)
  ∧ pending (run (rewriteSentence_settled key r) w) = pending w.
Proof.
  destruct (rewriteSentence_settled_writes key r) as (e & _ & Hrun).
  unfold run, state_after. rewrite Hrun. by cbn.
Qed.

Lemma ui_step_loading_counts ev w w' :
  loading_counts w → ui_step ev w = Some w' → loading_counts w'.
Proof.
  unfold loading_counts. intros Hinv Hstep.
  destruct ev as [f|v|v|v| |s|i r|i r]; simpl in Hstep.
  - injection Hstep as <-.
    destruct (onPickFile_fields f w)
      as (_ & _ & _ & _ & _ & _ & _ & Hl & _ & _ & _ & Hp & _).
    unfold analyses_in_flight. by rewrite Hp, Hl.
  - by injection Hstep as <-.
  - by injection Hstep as <-.
  - by injection Hstep as <-.
  - injection Hstep as <-. unfold click_analyze, analyze_disabled.
    destruct (loading (app w)) eqn:Hl; cbn [orb].
    + unfold run, state_after, mret, Js_ret. cbn [snd]. by rewrite Hl.
    + destruct (file (app w)) as [f|] eqn:Hf.
      * unfold run. remember (analyzePdf (app w) w) as p eqn:Hp.
        js_unfold_in Hp. rewrite Hf in Hp. cbn in Hp. subst p.
        cbn [state_after snd]. rewrite analyses_in_flight_fetch, Hinv. by cbn.
      * unfold run, state_after, mret, Js_ret. cbn [snd]. by rewrite Hl.
  - injection Hstep as <-. unfold click_rewrite.
    destruct (disabled _).
    + done.
    + destruct (rewriteSentence_keeps_analyses (app w) w s "plain_english")
        as [-> ->]. done.
  - destruct (pending w !! i) as [[b f|b s m]|] eqn:Hi; try done.
    injection Hstep as <-.
    destruct (analyzePdf_settled_total r (settle i w))
      as (_ & Hl & _ & Hp & _).
    injection Hp as Hp _. unfold analyses_in_flight in *. rewrite Hp, Hl.
    cbn [settle pending].
    rewrite (filter_delete_length is_analyze _ _ _ Hi) in Hinv. cbn in Hinv.
    destruct (loading (app w)); lia.
  - destruct (pending w !! i) as [[b f|b s m]|] eqn:Hi; try done.
    injection Hstep as <-.
    destruct (rewriteSentence_settled_keeps_analyses s r (settle i w))
      as [Hl Hp].
    unfold analyses_in_flight in *. rewrite Hp, Hl. cbn [settle pending app].
    rewrite (filter_delete_length is_analyze _ _ _ Hi) in Hinv. cbn in Hinv.
    by rewrite Nat.add_0_r in Hinv.
Qed.

(** X20: through the page, [/analyze] calls never overlap: in every state
    reached by picking files, moving the filters, editing the API base,
    clicking the buttons and having calls settle, at most one [/analyze]
    call is in flight, the loading flag is set exactly when one is, and an
    enabled Analyze button means none is.  Picking another file while a
    call is in flight does not unlock the button. *)
Theorem X20_at_most_one_analysis_in_flight (base : string) (w : World) :
  ui_reachable base w →
  (analyses_in_flight w ≤ 1)%nat
  ∧ analyses_in_flight w = (if loading (app w) then 1%nat else 0%nat)
  ∧ if analyze_disabled (app w) then True else analyses_in_flight w = 0%nat.
Proof.
  intros Hr.
  assert (loading_counts w) as Hinv.
  { induction Hr as [|ev w w' _ IH Hstep]; [done|].
    by eapply ui_step_loading_counts. }
  unfold loading_counts, analyze_disabled in *.
  destruct (loading (app w)); rewrite Hinv; cbn; [by split; [lia|]|].
  split; [lia|]. split; [done|]. by destruct (file (app w)).
Qed.

Lemma X20_analysis_in_flight_witness :
  ui_reachable DEFAULT_API_BASE world_analyzing
  ∧ analyses_in_flight world_analyzing = 1%nat
  ∧ (analyses_in_flight world_analyzing ≤ 1)%nat.
Proof.
  assert (ui_reachable DEFAULT_API_BASE world_analyzing) as Hr.
  { apply (ui_reachable_step _ UiClickAnalyze
             (run (onPickFile (Some file_report)) (init DEFAULT_API_BASE)));
      [apply (ui_reachable_step _ (UiPickFile (Some file_report))
                (init DEFAULT_API_BASE));
         [apply ui_reachable_init | vm_compute; reflexivity]
      | vm_compute; reflexivity]. }
  split; [exact Hr|]. split; [vm_compute; reflexivity|].
  exact (proj1 (X20_at_most_one_analysis_in_flight DEFAULT_API_BASE
                  world_analyzing Hr)).
Defined.

(** ** The API base *)

Lemma string_app_cons (c : Ascii.ascii) (s t : string) :
  String c s +:+ t = String c (s +:+ t).
Proof. reflexivity. Qed.

Lemma strip_trailing_slash_app (s : string) :
  strip_trailing_slash (s +:+ "/") = s.
Proof.
  induction s as [|c s IH]; [reflexivity|].
  rewrite string_app_cons. destruct s as [|c' s].
  - reflexivity.
  - rewrite string_app_cons in *. cbn [strip_trailing_slash].
    cbn [strip_trailing_slash] in IH. by rewrite IH.
Qed.

Lemma strip_trailing_slash_cases (s : string) :
  strip_trailing_slash s = s ∨ s = strip_trailing_slash s +:+ "/".
Proof.
  induction s as [|c s IH]; [by left|].
  destruct s as [|c' s].
  - cbn [strip_trailing_slash]. case_decide as H; [right|by left].
    by rewrite H.
  - change (strip_trailing_slash (String c (String c' s)))
      with (String c (strip_trailing_slash (String c' s))).
    destruct IH as [-> | IH]; [by left|right].
    rewrite string_app_cons. by rewrite <- IH.
Qed.

(** X21: stripping the API base removes exactly one slash at the end and
    nothing else: a base that had a slash appended comes back as it was, and
    any string is either returned unchanged or is the result with one slash
    appended (so a base ending in two slashes keeps one). *)
Theorem X21_one_trailing_slash_is_stripped (s : string) :
  strip_trailing_slash (s +:+ "/") = s
  ∧ (strip_trailing_slash s = s ∨ s = strip_trailing_slash s +:+ "/")
  ∧ strip_trailing_slash (s +:+ "//") = s +:+ "/".
Proof.
  split; [apply strip_trailing_slash_app|].
  split; [apply strip_trailing_slash_cases|].
  change "//" with ("/" +:+ "/"). rewrite <- string_app_assoc.
  apply strip_trailing_slash_app.
Qed.

(** X22: an API base typed with a slash at the end is used without it: after
    the field is set to [base/], a submit posts the file to [base/analyze]
    and a rewrite request goes to [base/rewrite], with one slash at the
    join. *)
Theorem X22_requests_use_the_stripped_base
    (w : World) (base sentence mode : string) (f : File) :
  file (app w) = Some f →
  rewriteBySentence (app w) !! sentence = None →
  let w1 := run (onChangeApiBase (base +:+ "/")) w in
  apiBase (app w1) = base
  ∧ sent (run (analyzePdf (app w1)) w1) = (sent w ++ [PostAnalyze base f])%list
  ∧ url (PostAnalyze base f) = base +:+ "/analyze"
  ∧ sent (run (rewriteSentence (app w1) sentence mode) w1)
    = (sent w ++ [PostRewrite base sentence mode])%list
  ∧ url (PostRewrite base sentence mode) = base +:+ "/rewrite".
Proof.
  intros Hf Hn w1. subst w1. unfold onChangeApiBase.
  rewrite strip_trailing_slash_app.
  split; [done|]. split; [|split; [done|split; [|done]]].
  - unfold run. remember (setApiBase base w) as p1 eqn:Hp1.
    unfold setApiBase, on_app, modify in Hp1. subst p1. cbn [state_after snd].
    js_unfold. cbn. rewrite Hf. done.
  - unfold run. remember (setApiBase base w) as p1 eqn:Hp1.
    unfold setApiBase, on_app, modify in Hp1. subst p1. cbn [state_after snd].
    js_unfold. cbn. rewrite Hn. done.
Qed.

Lemma X22_stripped_base_witness :
  file (app world_done) = Some file_report
  ∧ rewriteBySentence (app world_done) !! "B" = None
  ∧ sent (run (analyzePdf
                 (app (run (onChangeApiBase ("http://h" +:+ "/")) world_done)))
              (run (onChangeApiBase ("http://h" +:+ "/")) world_done))
    = (sent world_done ++ [PostAnalyze "http://h" file_report])%list.
Proof.
  split; [reflexivity|]. split; [reflexivity|].
  apply (X22_requests_use_the_stripped_base world_done "http://h" "B"
           "plain_english" file_report); reflexivity.
Defined.

(** ** The minimal client *)

Ltac minimal_unfold_in H :=
  unfold Minimal.analyze_settled, Minimal.analyze_try, Minimal.analyze_catch,
    Minimal.analyze, Minimal.onChange, Minimal.run, Minimal.setStatus,
    Minimal.setError, Minimal.setResult, Minimal.setFile, Minimal.fetch,
    Minimal.on_app in H.

(** X23: in the minimal client every settlement of [/analyze] leaves the
    analyzing status and does not throw: the status is done exactly when a
    2xx response with a readable body came back, and then the body is the
    stored result; otherwise it is error, the result is as it was, and the
    message is the backend error with status and body when a non-2xx
    response could be read, and the fixed could-not-reach-backend text in
    every other case, a 2xx response with unreadable JSON included. *)
Theorem X23_minimal_settlement_ends_in_done_or_error
    (r : Settled AnalysisResult) (m : Minimal.World) :
  let p := Minimal.analyze_settled r m in
  let m' := state_after p in
  outcome p = inr tt
  ∧ Minimal.status (Minimal.app m')
    = (if completed_ok r then "done" else "error")
  ∧ if completed_ok r
    then match r with
         | Resolved res => Response.json res = inr (Minimal.result (Minimal.app m'))
         | Rejected _ => False
         end
         ∧ Minimal.error (Minimal.app m') = Minimal.error (Minimal.app m)
    else Minimal.result (Minimal.app m') = Minimal.result (Minimal.app m)
         ∧ Minimal.error (Minimal.app m') ≠ ""
         ∧ Minimal.error (Minimal.app m')
           = match r with
             | Resolved res =>
                 if Response.ok res
                 then "Could not reach backend. Is uvicorn running on :8000?"
                 else match Response.text res with
                      | inr body =>
                          "Backend error (" +:+ pretty (Response.status res)
                          +:+ "): " +:+ body
                      | inl _ =>
                          "Could not reach backend. Is uvicorn running on :8000?"
                      end
             | Rejected _ =>
                 "Could not reach backend. Is uvicorn running on :8000?"
             end.
Proof.
  intros p m'. subst m'. remember p as q eqn:Hq. subst p.
  destruct r as [e|res]; cbn [completed_ok].
  - minimal_unfold_in Hq. js_unfold_in Hq. cbn in Hq. subst q. cbn.
    repeat split; discriminate.
  - destruct (Response.ok res) eqn:Hok; cbn [andb].
    + destruct (Response.json res) as [e|data] eqn:Hjson;
        minimal_unfold_in Hq; js_unfold_in Hq; rewrite Hok, Hjson in Hq;
        cbn in Hq; subst q; cbn; repeat split; discriminate.
    + minimal_unfold_in Hq. js_unfold_in Hq. rewrite Hok in Hq. cbn in Hq.
      destruct (Response.text res) as [e|body]; cbn in Hq; subst q; cbn;
        repeat split; discriminate.
Qed.

Lemma Array_join_includes (sep x : string) (l : list string) :
  x ∈ l → includes x (Array_join sep l).
Proof.
  induction l as [|y l IH]; [by intros ?%elem_of_nil|].
  intros [->|Hin]%elem_of_cons.
  - destruct l; simpl; eauto with includes.
  - destruct l as [|z l]; [by apply elem_of_nil in Hin|].
    change (includes x (y +:+ sep +:+ Array_join sep (z :: l))).
    eauto with includes.
Qed.

(** X24: the hotspot text of the minimal client contains the text of every
    sentence of top_risk_sentences, of those beyond the first five too; it
    is empty when the field is absent. *)
Theorem X24_hotspot_text_contains_every_hotspot
    (result : option AnalysisResult) (top : list ScoredSentence)
    (x : ScoredSentence) :
  result ≫= top_risk_sentences = Some top →
  x ∈ top →
  includes (sentence x) (MinimalView.hotspotText result)
  ∧ MinimalView.hotspotText None = "".
Proof.
  intros Ht Hx. split; [|done]. unfold MinimalView.hotspotText. rewrite Ht.
  apply Array_join_includes. by apply list_elem_of_fmap_2.
Qed.

Lemma X24_hotspot_text_witness :
  Some analysis_shortlist ≫= top_risk_sentences = Some [sentence_C; sentence_B]
  ∧ sentence_B ∈ [sentence_C; sentence_B]
  ∧ includes "B" (MinimalView.hotspotText (Some analysis_shortlist)).
Proof.
  assert (sentence_B ∈ [sentence_C; sentence_B]) as Hin by (right; left).
  split; [reflexivity|]. split; [exact Hin|].
  apply (X24_hotspot_text_contains_every_hotspot (Some analysis_shortlist)
           [sentence_C; sentence_B] sentence_B eq_refl Hin).
Defined.

(** X25: the minimal client lists the first five hotspots of the backend
    and no others: the list is a prefix of top_risk_sentences in the
    backend's order, with min(5, n) elements, and it is empty when the field
    is absent. *)
Theorem X25_minimal_lists_first_five (result : option AnalysisResult) :
  MinimalView.listed result `prefix_of` MinimalView.top result
  ∧ length (MinimalView.listed result)
    = Nat.min 5 (length (MinimalView.top result))
  ∧ MinimalView.listed result
    = take 5 (default [] (result ≫= top_risk_sentences)).
Proof.
  unfold MinimalView.listed, MinimalView.top.
  rewrite Array_slice_prefix by lia.
  split; [apply prefix_take|]. split; [apply length_take|done].
Qed.
